(** * Schema-driven validation and dispatch of the Adobe I/O MCP server

    A shallow embedding of [src/utils/sdk-schema-manager.js] (the schema
    store, the validator compiler and the default resolver),
    [src/server.js] (the request router) and [src/tools/index.js] (the
    dispatch table), together with the properties stated about them.

    Conventions of the embedding.
    - A JavaScript value read from a JSON document is a [JSON] term;
      [undefined] is [None] in an [option JSON].
    - A plain object is the list of its own properties in enumeration
      order ([Object.entries]): the names that are array indices first, in
      ascending order, then the others in the order they were added.
      [obj_get] and [obj_has] see own properties only; [js_in] is the [in]
      operator, which also sees the members of [Object.prototype].  zod
      reads [data[key]] for the declared names: [parse_shape] models it on
      names that are not [inherited], and the statements that depend on it
      say so.
    - A number is the rational value of the double the code holds (the
      numeral has already been rounded when the document was read); a
      magnitude of 2^1024 or more stands for an infinity.
    - The two [Map]s of the schema manager are [gmap]s keyed by tool name.
    - Code that can throw returns a [Result]; [console.error] appends to
      the [console] field of the manager state.
    - zod (v3) and the MCP SDK are libraries outside the repository: their
      parsers are modelled after the library, restricted to the
      combinators the repository uses. *)

From Stdlib Require Import QArith.QArith_base.
From stdpp Require Import base gmap strings list pretty.

Open Scope string_scope.

#[local] Set Warnings "-register-all,-clear-no-such-hyp".

(** ** JavaScript values *)

Inductive JSON : Type :=
| JNull
| JBool (b : bool)
| JNum (q : Q)
| JStr (s : string)
| JArr (items : list JSON)
| JObj (fields : list (string * JSON)).

(** An object: its own properties, in enumeration order. *)
Abbreviation Obj := (list (string * JSON)).

Definition JInt (z : Z) : JSON := JNum (inject_Z z).

(** [o[k]] on the own properties of an object (also used for the shape of
    a [z.object]). *)
Fixpoint obj_get {V} (k : string) (o : list (string * V)) : option V :=
  match o with
  | [] => None
  | (k', v) :: o' => if String.eqb k k' then Some v else obj_get k o'
  end.

(** [Object.hasOwn(o, k)]. *)
Definition obj_has {V} (k : string) (o : list (string * V)) : bool :=
  match obj_get k o with Some _ => true | None => false end.

(** The names every plain object inherits from [Object.prototype]. *)
Definition ObjectPrototype : list string :=
  [ "constructor"; "hasOwnProperty"; "isPrototypeOf"; "propertyIsEnumerable";
    "toLocaleString"; "toString"; "valueOf"; "__proto__";
    "__defineGetter__"; "__defineSetter__";
    "__lookupGetter__"; "__lookupSetter__" ].

Definition inherited (k : string) : bool :=
  existsb (String.eqb k) ObjectPrototype.

(** [k in o] for a plain object [o]: an own property, or an inherited
    one. *)
Definition js_in {V} (k : string) (o : list (string * V)) : bool :=
  obj_has k o || inherited k.

(** An array index: the canonical numeral of an integer below 2^32 - 1.
    Properties named by array indices are enumerated before the others, in
    ascending order. *)
Definition digit (c : Ascii.ascii) : option N :=
  let n := Ascii.N_of_ascii c in
  if (48 <=? n)%N && (n <=? 57)%N then Some (n - 48)%N else None.

Fixpoint numeral (s : string) (acc : N) : option N :=
  match s with
  | EmptyString => Some acc
  | String c s' =>
      match digit c with
      | Some d => numeral s' (10 * acc + d)%N
      | None => None
      end
  end.

Definition arrayIndex (k : string) : option N :=
  if String.eqb k "" then None
  else if String.eqb k "0" then Some 0%N
  else if String.prefix "0" k then None
  else
    match numeral k 0 with
    | Some n => if (n <? 4294967295)%N then Some n else None
    | None => None
    end.

(** A new property [k] is enumerated before the property [k']. *)
Definition precedes (k k' : string) : bool :=
  match arrayIndex k, arrayIndex k' with
  | Some n, Some n' => (n <? n')%N
  | Some _, None => true
  | None, _ => false
  end.

(** [o[k] = v] when [o] has the property [k]: its value is replaced. *)
Fixpoint obj_put {V} (k : string) (v : V) (o : list (string * V))
    : list (string * V) :=
  match o with
  | [] => []
  | (k', v') :: o' =>
      if String.eqb k k' then (k', v) :: o' else (k', v') :: obj_put k v o'
  end.

(** [o[k] = v] when [o] has no property [k]: the property is created, at
    the place where it will be enumerated. *)
Fixpoint obj_add {V} (k : string) (v : V) (o : list (string * V))
    : list (string * V) :=
  match o with
  | [] => [(k, v)]
  | (k', v') :: o' =>
      if precedes k k' then (k, v) :: o else (k', v') :: obj_add k v o'
  end.

(** [o[k] = v] on a plain object, for a name other than [__proto__]. *)
Definition obj_set {V} (k : string) (v : V) (o : list (string * V))
    : list (string * V) :=
  if obj_has k o then obj_put k v o else obj_add k v o.

Definition obj_keys {V} (o : list (string * V)) : list string := map fst o.

(** [v.k] for a value that is not [null]: only plain objects carry the
    properties the code reads ([type], [enum], [default], [name], ...). *)
Definition get (k : string) (v : JSON) : option JSON :=
  match v with
  | JObj o => obj_get k o
  | _ => None
  end.

(** Truthiness of a value in a condition. *)
Definition Qis_zero (q : Q) : bool := Z.eqb (Qnum q) 0.

Definition truthy (v : option JSON) : bool :=
  match v with
  | None | Some JNull | Some (JBool false) | Some (JStr "") => false
  | Some (JNum q) => negb (Qis_zero q)
  | Some _ => true
  end.

(** The doubles end below 2^1024: a larger magnitude is [Infinity] or
    [-Infinity]. *)
Definition isFinite (q : Q) : bool :=
  Z.ltb (Z.abs (Qnum q)) (2 ^ 1024 * Z.pos (Qden q)).

(** [Number.isInteger]. *)
Definition isInteger (q : Q) : bool :=
  isFinite q && Z.eqb (Qnum q mod Z.pos (Qden q)) 0.

(** [String.prototype.endsWith] and [String.prototype.includes]. *)
Definition endsWith (s suffix : string) : bool :=
  let n := String.length s in
  let m := String.length suffix in
  Nat.leb m n && String.eqb (String.substring (n - m) m s) suffix.


(** [Array.prototype.join]. *)
Definition join (sep : string) (parts : list string) : string :=
  String.concat sep parts.

(** ** Exceptions *)

Record Error := mkError { message : string }.

Inductive Result (A : Type) : Type :=
| Ok (a : A)
| Throw (e : Error).
Arguments Ok {A} a.
Arguments Throw {A} e.

#[global] Instance Result_ret : MRet Result := λ A a, Ok a.
#[global] Instance Result_bind : MBind Result := λ A B k r,
  match r with
  | Ok a => k a
  | Throw e => Throw e
  end.

Definition TypeError (msg : string) : Error := mkError msg.

(** ** zod: the combinators used by the repository *)

(** The name zod gives to the run-time type of a value ([getParsedType]). *)
Definition parsedType (v : option JSON) : string :=
  match v with
  | None => "undefined"
  | Some JNull => "null"
  | Some (JBool _) => "boolean"
  | Some (JNum _) => "number"
  | Some (JStr _) => "string"
  | Some (JArr _) => "array"
  | Some (JObj _) => "object"
  end.

(** [String(v)] for the values that can occur in an option list; a number is
    printed as JavaScript prints it when it is an integer below 1e21, an
    infinity, or a fraction with a short terminating expansion. *)
Fixpoint fraction_digits (fuel : nat) (r d : Z) : string :=
  match fuel with
  | O => ""
  | S fuel' =>
      if Z.eqb r 0 then ""
      else pretty (10 * r / d)%Z +:+ fraction_digits fuel' ((10 * r) mod d)%Z d
  end.

Definition Number_toString (q : Q) : string :=
  let n := Qnum q in
  let d := Z.pos (Qden q) in
  let a := Z.abs n in
  let sign := if Z.ltb n 0 then "-" else "" in
  let whole := pretty (a / d)%Z in
  if negb (isFinite q) then sign +:+ "Infinity"
  else if Z.eqb (a mod d) 0 then sign +:+ whole
  else sign +:+ whole +:+ "." +:+ fraction_digits 17 (a mod d)%Z d.

Fixpoint toString (v : JSON) : string :=
  match v with
  | JNull => "null"
  | JBool true => "true"
  | JBool false => "false"
  | JNum q => Number_toString q
  | JStr s => s
  | JArr items =>
      join "," (map (λ x, match x with JNull => "" | _ => toString x end) items)
  | JObj _ => "[object Object]"
  end.

(** [util.joinValues]: strings are quoted, the rest is left to [join]. *)
Definition joinValues (values : list JSON) : string :=
  join " | "
    (map (λ v, match v with
               | JStr s => "'" +:+ s +:+ "'"
               | JNull => ""
               | _ => toString v
               end) values).

(** An issue as [safeParse] reports it: where, and zod's default message. *)
Record ZodIssue := mkIssue { path : list string; issue_message : string }.

Definition invalid_type (p : list string) (expected : string)
    (received : option JSON) : ZodIssue :=
  mkIssue p
    (match received with
     | None => "Required"
     | Some _ => "Expected " +:+ expected +:+ ", received " +:+ parsedType received
     end).

Definition invalid_enum_value (p : list string) (options : list JSON)
    (received : string) : ZodIssue :=
  mkIssue p ("Invalid enum value. Expected " +:+ joinValues options
             +:+ ", received '" +:+ received +:+ "'").

(** The validators [createZodSchema] can build for one property. *)
Inductive ZodType : Type :=
| ZodString                      (* z.string() *)
| ZodBoolean                     (* z.boolean() *)
| ZodNumber                      (* z.number() *)
| ZodInt                         (* z.number().int() *)
| ZodRecordAny                   (* z.record(z.any()) *)
| ZodAny                         (* z.any() *)
| ZodEnum (values : JSON)        (* z.enum(values) *)
| ZodOptional (inner : ZodType). (* t.optional() *)

(** The result of running one validator on a (possibly absent) value. *)
Inductive ParseReturn : Type :=
| Valid (value : option JSON)
| Invalid (issues : list ZodIssue).

Definition enum_has (s : string) (values : list JSON) : bool :=
  existsb (λ v, match v with JStr t => String.eqb s t | _ => false end) values.

(** The code points of a string, as iterating it yields them.  Strings are
    held in UTF-8, where the first byte of a code point gives its width. *)
Definition utf8_width (lead : Ascii.ascii) : nat :=
  let n := Ascii.N_of_ascii lead in
  if (n <? 192)%N then 1
  else if (n <? 224)%N then 2
  else if (n <? 240)%N then 3
  else 4.

Fixpoint codePoints_from (fuel : nat) (s : string) : list string :=
  match fuel, s with
  | S fuel', String lead _ =>
      let w := utf8_width lead in
      String.substring 0 w s
      :: codePoints_from fuel' (String.substring w (String.length s - w) s)
  | _, _ => []
  end.

Definition codePoints (s : string) : list string :=
  codePoints_from (String.length s) s.

(** The error of [new Set(values)] for a value that cannot be iterated. *)
Definition notIterable (values : JSON) : Error :=
  TypeError
    (match values with
     | JObj _ => "object"
     | _ => parsedType (Some values) +:+ " " +:+ toString values
     end +:+ " is not iterable (cannot read property Symbol(Symbol.iterator))").

(** [t._parse(value)] at path [p].  A record hands on a copy of the
    object it accepts; the embedding takes the copy to be the object,
    which it is up to a member named [__proto__].  [z.enum] keeps whatever
    it was given as its option list and only uses it when a value is
    checked: it looks
    the value up in [new Set(values)] and prints the list with
    [values.map] when it reports a mismatch.  An option list that is a
    string therefore admits its code points and throws on every other
    value; one that is neither an array nor a string throws on every
    value (zod 3.23 and later). *)
Fixpoint parse (t : ZodType) (p : list string) (v : option JSON)
    : Result ParseReturn :=
  match t with
  | ZodString =>
      match v with
      | Some (JStr _) => Ok (Valid v)
      | _ => Ok (Invalid [invalid_type p "string" v])
      end
  | ZodBoolean =>
      match v with
      | Some (JBool _) => Ok (Valid v)
      | _ => Ok (Invalid [invalid_type p "boolean" v])
      end
  | ZodNumber =>
      match v with
      | Some (JNum _) => Ok (Valid v)
      | _ => Ok (Invalid [invalid_type p "number" v])
      end
  | ZodInt =>
      match v with
      | Some (JNum q) =>
          if isInteger q then Ok (Valid v)
          else Ok (Invalid [mkIssue p "Expected integer, received float"])
      | _ => Ok (Invalid [invalid_type p "number" v])
      end
  | ZodRecordAny =>
      match v with
      | Some (JObj _) => Ok (Valid v)
      | _ => Ok (Invalid [invalid_type p "object" v])
      end
  | ZodAny => Ok (Valid v)
  | ZodEnum (JArr values) =>
      match v with
      | Some (JStr s) =>
          if enum_has s values then Ok (Valid v)
          else Ok (Invalid [invalid_enum_value p values s])
      | _ => Ok (Invalid [invalid_type p (joinValues values) v])
      end
  | ZodEnum (JStr chars) =>
      match v with
      | Some (JStr s) =>
          if existsb (String.eqb s) (codePoints chars) then Ok (Valid v)
          else Throw (TypeError "array.map is not a function")
      | _ => Throw (TypeError "array.map is not a function")
      end
  | ZodEnum values =>
      match v with
      | Some (JStr _) => Throw (notIterable values)
      | _ => Throw (TypeError "array.map is not a function")
      end
  | ZodOptional inner =>
      match v with
      | None => Ok (Valid None)
      | Some _ => parse inner p v
      end
  end.

(** [z.object(shape)]: the shape in key order. *)
Abbreviation ZodObject := (list (string * ZodType)).

(** The loop of [ZodObject._parse] over the shape keys, in the default
    "strip" mode: every key of the shape is parsed (so every issue is
    collected), a key is written to the output when its value is defined,
    and keys of the input outside the shape are not looked at.  The value
    of a key is read among the own properties of the input, which is what
    [data[key]] yields for a key that is not [inherited]. *)
Fixpoint parse_shape (shape : ZodObject) (data : Obj)
    : Result (list ZodIssue * Obj) :=
  match shape with
  | [] => Ok ([], [])
  | (key, t) :: shape' =>
      r ← parse t [key] (obj_get key data) ;
      rest ← parse_shape shape' data ;
      match r with
      | Valid (Some value) => Ok (rest.1, (key, value) :: rest.2)
      | Valid None => Ok rest
      | Invalid issues => Ok ((issues ++ rest.1)%list, rest.2)
      end
  end.

Inductive SafeParseReturn : Type :=
| Success (data : Obj)
| Failure (issues : list ZodIssue).

(** [z.object(shape).safeParse(input)]. *)
Definition safeParse (shape : ZodObject) (input : option JSON)
    : Result SafeParseReturn :=
  match input with
  | Some (JObj data) =>
      r ← parse_shape shape data ;
      match r.1 with
      | [] => Ok (Success r.2)
      | issues => Ok (Failure issues)
      end
  | _ => Ok (Failure [invalid_type [] "object" input])
  end.

(** ** The schema manager ([src/utils/sdk-schema-manager.js]) *)

(** What [ToolInputSchema] lets through: a document with a string [name],
    a string [description] and an [inputSchema] whose [type] is the
    literal ["object"], whose [properties], when present, is an object and
    whose [required], when present, is an array of strings.  The record is
    the view of such a document that the manager reads afterwards; the
    document itself is what the [schemas] map stores. *)
Record ToolSchema := mkToolSchema {
  name : string;
  description : string;
  properties : option Obj;
  required : option (list string);
  document : JSON
}.

Fixpoint strings_of (items : list JSON) : option (list string) :=
  match items with
  | [] => Some []
  | JStr s :: items' => cons s <$> strings_of items'
  | _ => None
  end.

(** [ToolInputSchema.safeParse(schema)]: [None] stands for
    [{success: false}]. *)
Definition ToolInputSchema_safeParse (schema : JSON) : option ToolSchema :=
  match schema with
  | JObj o =>
      match obj_get "name" o, obj_get "description" o, obj_get "inputSchema" o with
      | Some (JStr n), Some (JStr d), Some (JObj i) =>
          match obj_get "type" i with
          | Some (JStr t) =>
              if String.eqb t "object" then
                props ← match obj_get "properties" i with
                        | None => Some None
                        | Some (JObj ps) => Some (Some ps)
                        | Some _ => None
                        end;
                req ← match obj_get "required" i with
                      | None => Some None
                      | Some (JArr items) => Some <$> strings_of items
                      | Some _ => None
                      end;
                Some (mkToolSchema n d props req schema)
              else None
          | _ => None
          end
      | _, _, _ => None
      end
  | _ => None
  end.

Inductive LogLine : Type :=
| InvalidSchemaStructure (file : string)  (* `Invalid schema structure in ${file}:` *)
| LoadedSchemas (count : nat)             (* `Loaded ${size} schemas with Zod validation` *)
| ErrorLoadingSchemas (e : Error).        (* 'Error loading schemas:' *)

Record SDKSchemaManager := mkManager {
  schemas : gmap string ToolSchema;
  zodSchemas : gmap string ZodObject;
  console : list LogLine
}.

(** [new SDKSchemaManager()]. *)
Definition constructor : SDKSchemaManager := mkManager ∅ ∅ [].

Definition console_error (l : LogLine) (m : SDKSchemaManager) : SDKSchemaManager :=
  mkManager (schemas m) (zodSchemas m) (console m ++ [l])%list.

(** The body of the loop of [createZodSchema] for one property: the base
    type from [propSchema.type], replaced by [z.enum] when
    [propSchema.enum] is truthy.  Reading a property of [null] throws. *)
Definition zodTypeOf (propSchema : JSON) : Result ZodType :=
  match propSchema with
  | JNull => Throw (TypeError "Cannot read properties of null (reading 'type')")
  | _ =>
      let zodType :=
        match get "type" propSchema with
        | Some (JStr t) =>
            if String.eqb t "string" then ZodString
            else if String.eqb t "boolean" then ZodBoolean
            else if String.eqb t "integer" then ZodInt
            else if String.eqb t "number" then ZodNumber
            else if String.eqb t "object" then ZodRecordAny
            else ZodAny
        | _ => ZodAny
        end in
      match get "enum" propSchema with
      | Some values => Ok (if truthy (Some values) then ZodEnum values else zodType)
      | None => Ok zodType
      end
  end.

(** [required.includes(key)]. *)
Definition array_includes (xs : list string) (key : string) : bool :=
  existsb (String.eqb key) xs.

(** The whole body of that loop: the validator stored under [key]. *)
Definition propertyValidator (required : list string) (key : string)
    (propSchema : JSON) : Result ZodType :=
  zodType ← zodTypeOf propSchema;
  Ok (if array_includes required key then zodType else ZodOptional zodType).

Fixpoint compileProperties (entries : Obj) (required : list string)
    (properties : ZodObject) : Result ZodObject :=
  match entries with
  | [] => Ok properties
  | (key, propSchema) :: entries' =>
      zodType ← propertyValidator required key propSchema;
      compileProperties entries' required (obj_set key zodType properties)
  end.

(** [createZodSchema(toolSchema)].  After the shape validation
    [inputSchema] is an object and [properties] an object or absent, so
    the guard at the top is the test on [properties]. *)
Definition createZodSchema (toolSchema : ToolSchema) (m : SDKSchemaManager)
    : Result SDKSchemaManager :=
  match properties toolSchema with
  | None => Ok m
  | Some props =>
      zodSchema ← compileProperties props (default [] (required toolSchema)) [];
      Ok (mkManager (schemas m) (<[name toolSchema := zodSchema]> (zodSchemas m))
            (console m))
  end.

(** The schema directory as the loader meets it: [fs.readdir] fails or
    lists files, and each file, once read and handed to [JSON.parse], is
    unreadable, not JSON, or a document. *)
Inductive FileContent : Type :=
| Unreadable (e : Error)
| NotJSON (e : Error)
| Document (schema : JSON).

Abbreviation Directory := (Result (list (string * FileContent))).

(** One iteration of the [for] loop of [loadSchemas]; the manager keeps
    what was written before an exception. *)
Definition loadFile (file : string) (content : FileContent)
    (m : SDKSchemaManager) : SDKSchemaManager * Result () :=
  match content with
  | Unreadable e => (m, Throw e)
  | NotJSON e => (m, Throw e)
  | Document schema =>
      match ToolInputSchema_safeParse schema with
      | Some toolSchema =>
          let m1 := mkManager (<[name toolSchema := toolSchema]> (schemas m))
                      (zodSchemas m) (console m) in
          match createZodSchema toolSchema m1 with
          | Ok m2 => (m2, Ok ())
          | Throw e => (m1, Throw e)
          end
      | None => (console_error (InvalidSchemaStructure file) m, Ok ())
      end
  end.

Fixpoint loadFiles (jsonFiles : list (string * FileContent))
    (m : SDKSchemaManager) : SDKSchemaManager * Result () :=
  match jsonFiles with
  | [] => (m, Ok ())
  | (file, content) :: jsonFiles' =>
      match loadFile file content m with
      | (m', Ok _) => loadFiles jsonFiles' m'
      | (m', Throw e) => (m', Throw e)
      end
  end.

Definition jsonFiles (files : list (string * FileContent))
    : list (string * FileContent) :=
  filter (λ f, endsWith f.1 ".json" = true) files.

(** [loadSchemas()]: the [try] block, then the [catch] that logs and
    rethrows. *)
Definition loadSchemas (schemasDir : Directory) (m : SDKSchemaManager)
    : SDKSchemaManager * Result () :=
  let attempt :=
    match schemasDir with
    | Throw e => (m, Throw e)
    | Ok files => loadFiles (jsonFiles files) m
    end in
  match attempt with
  | (m', Ok _) => (console_error (LoadedSchemas (size (schemas m'))) m', Ok ())
  | (m', Throw e) => (console_error (ErrorLoadingSchemas e) m', Throw e)
  end.

(** [reloadSchemas()]. *)
Definition reloadSchemas (schemasDir : Directory) (m : SDKSchemaManager)
    : SDKSchemaManager * Result () :=
  loadSchemas schemasDir (mkManager ∅ ∅ (console m)).

(** [getSchema(name)]. *)
Definition getSchema (m : SDKSchemaManager) (schemaName : string)
    : option ToolSchema :=
  schemas m !! schemaName.

(** The object [validateInput] returns. *)
Inductive Validation : Type :=
| valid_true (data : Obj)        (* { valid: true, data } *)
| valid_false (error : string).  (* { valid: false, error } *)

(** [validateInput(schemaName, input)]. *)
Definition validateInput (m : SDKSchemaManager) (schemaName : string)
    (input : option JSON) : Result Validation :=
  match zodSchemas m !! schemaName with
  | None => Ok (valid_false ("Schema not found: " +:+ schemaName))
  | Some zodSchema =>
      validation ← safeParse zodSchema input;
      match validation with
      | Success data => Ok (valid_true data)
      | Failure errors =>
          Ok (valid_false ("Validation failed: "
                           +:+ join ", " (map issue_message errors)))
      end
  end.

(** The error of [k in v] for a primitive [v]. *)
Definition inOperatorError (k : string) (v : JSON) : Error :=
  TypeError ("Cannot use 'in' operator to search for '" +:+ k +:+ "' in "
             +:+ toString v).

(** The loop of [applyDefaults]: [key in result] also holds for the names
    a plain object inherits; [in] on a primitive property schema throws,
    and is only evaluated when the first test fails. *)
Fixpoint fillDefaults (entries : Obj) (result : Obj) : Result Obj :=
  match entries with
  | [] => Ok result
  | (key, propertySchema) :: entries' =>
      if js_in key result then fillDefaults entries' result
      else
        match propertySchema with
        | JObj o =>
            match obj_get "default" o with
            | Some d => fillDefaults entries' (obj_set key d result)
            | None => fillDefaults entries' result
            end
        | JArr _ => fillDefaults entries' result
        | _ => Throw (inOperatorError "default" propertySchema)
        end
  end.

(** [applyDefaults(input, schemaName)]; the result starts as the copy
    [{ ...input }]. *)
Definition applyDefaults (m : SDKSchemaManager) (input : Obj)
    (schemaName : string) : Result Obj :=
  match getSchema m schemaName with
  | None => Ok input
  | Some schema =>
      match properties schema with
      | Some props => fillDefaults props input
      | None => Ok input
      end
  end.

(** ** The call envelope *)

Definition dquote : string := String (Ascii.ascii_of_nat 34) EmptyString.

(** The [_meta] member of the request parameters: when present, an object
    whose [progressToken], when present, is a string or an integer (a
    [z.union], which reports ["Invalid input"]). *)
Definition RequestMeta_issues (meta : option JSON) : list ZodIssue :=
  match meta with
  | None => []
  | Some (JObj o) =>
      match obj_get "progressToken" o with
      | None | Some (JStr _) => []
      | Some (JNum q) =>
          if isInteger q then []
          else [mkIssue ["params"; "_meta"; "progressToken"] "Invalid input"]
      | Some _ => [mkIssue ["params"; "_meta"; "progressToken"] "Invalid input"]
      end
  | other => [invalid_type ["params"; "_meta"] "object" other]
  end.

(** [CallToolRequestSchema.safeParse(request)] of the MCP SDK: [method] is
    the literal ["tools/call"], [params] is an object with an optional
    [_meta], a string [name] and, when present, a record [arguments].  The
    list holds the issues in the order of the schema's keys; it is empty on
    success. *)
Definition CallToolRequestSchema_safeParse (request : JSON) : list ZodIssue :=
  match request with
  | JObj o =>
      (match obj_get "method" o with
       | Some (JStr "tools/call") => []
       | _ =>
           [mkIssue ["method"]
              ("Invalid literal value, expected " +:+ dquote +:+ "tools/call" +:+ dquote)]
       end ++
       match obj_get "params" o with
       | Some (JObj params) =>
           (RequestMeta_issues (obj_get "_meta" params) ++
            match obj_get "name" params with
            | Some (JStr _) => []
            | other => [invalid_type ["params"; "name"] "string" other]
            end ++
            match obj_get "arguments" params with
            | None | Some (JObj _) => []
            | other => [invalid_type ["params"; "arguments"] "object" other]
            end)%list
       | other => [invalid_type ["params"] "object" other]
       end)%list
  | _ => [invalid_type [] "object" (Some request)]
  end.

Inductive RequestValidation : Type :=
| request_valid                      (* { valid: true, data } *)
| request_invalid (error : string).  (* { valid: false, error } *)

(** [validateToolRequest(request)]. *)
Definition validateToolRequest (request : JSON) : RequestValidation :=
  match CallToolRequestSchema_safeParse request with
  | [] => request_valid
  | errors =>
      request_invalid ("Invalid tool request: "
                       +:+ join ", " (map issue_message errors))
  end.

(** [const { name, arguments: args } = request.params].  The envelope
    check has made [params] an object with a string [name] by then; on any
    other request the destructuring is modelled as a throw. *)
Definition destructure (request : JSON) : Result (string * option JSON) :=
  match get "params" request with
  | Some (JObj params) =>
      match obj_get "name" params with
      | Some (JStr name) => Ok (name, obj_get "arguments" params)
      | _ => Throw (TypeError "name is not a string")
      end
  | _ => Throw (TypeError "Cannot destructure property 'name' of 'request.params'")
  end.

(** ** The dispatch table ([src/tools/index.js]) and the router
       ([src/server.js]) *)

Record TextContent := mkContent { type : string; text : string }.
Record ToolResponse := mkResponse { content : list TextContent }.

Definition textResponse (t : string) : ToolResponse :=
  mkResponse [mkContent "text" t].

(** A tool handler: an asynchronous function of the arguments that
    resolves to a response or rejects with an error. *)
Definition ToolHandler : Type := Obj → Result ToolResponse.

(** The [switch] of [getToolHandler]: tool name to module. *)
Definition toolModules : list (string * string) :=
  [ ("aio-app-deploy", "./aio-app-deploy.js");
    ("aio-app-dev", "./aio-app-dev.js");
    ("aio-dev-invoke", "./aio-dev-invoke.js");
    ("aio-login", "./aio-login.js");
    ("aio-where", "./aio-where.js");
    ("aio-app-use", "./aio-app-use.js");
    ("aio-configure-global", "./aio-configure-global.js");
    ("onboard", "./onboard.js");
    ("commerce-event-subscribe", "./commerce-event-subscribe.js");
    ("search-commerce-app-builder-docs", "./search-commerce-app-builder-docs.js") ].

(** What one call of the router did: the handler invocations it made, and
    how its promise settled. *)
Record CallOutcome := mkOutcome {
  invoked : list (string * Obj);
  settled : Result ToolResponse
}.

Section Router.

(** [(await import(module)).default]: the handler a module exports, or
    the error its loading raised. *)
Variable import : string → Result ToolHandler.

(** [getToolHandler(name)]; [None] is [null]. *)
Definition getToolHandler (name : string) : Result (option ToolHandler) :=
  match obj_get name toolModules with
  | Some module => toolHandler ← import module; Ok (Some toolHandler)
  | None => Ok None
  end.

(** The [catch] of the request handler. *)
Definition caught (e : Error) : Result ToolResponse :=
  Ok (textResponse ("Error: " +:+ message e)).

(** The handler registered for [CallToolRequestSchema]. *)
Definition callTool (m : SDKSchemaManager) (request : JSON) : CallOutcome :=
  match validateToolRequest request with
  | request_invalid error =>
      mkOutcome [] (Ok (textResponse ("❌ Invalid request format: " +:+ error)))
  | request_valid =>
      match destructure request with
      | Throw e => mkOutcome [] (Throw e)
      | Ok (name, args) =>
          (* try { *)
          match validateInput m name args with
          | Throw e => mkOutcome [] (caught e)
          | Ok (valid_false error) =>
              mkOutcome []
                (Ok (textResponse ("❌ Input validation failed: " +:+ error)))
          | Ok (valid_true data) =>
              match applyDefaults m data name with
              | Throw e => mkOutcome [] (caught e)
              | Ok validatedArgs =>
                  match getToolHandler name with
                  | Throw e => mkOutcome [] (caught e)
                  | Ok None =>
                      mkOutcome [] (caught (mkError ("Unknown tool: " +:+ name)))
                  | Ok (Some toolHandler) =>
                      mkOutcome [(name, validatedArgs)]
                        match toolHandler validatedArgs with
                        | Ok response => Ok response
                        | Throw e => caught e
                        end
                  end
              end
          end
          (* } catch (error) { ... } *)
      end
  end.

End Router.

(** ** The process executor *)

(** [src/utils/command-executor.js] is not among the sources: only the
    calls of [executeCommand] in the tool handlers are.  The module is
    written after section 4.4 of the specification. *)
Module CommandExecutor.

(** Modelled from the spec: what the operating system does with the
    command handed to [executeCommand]: the spawn fails with an error, or
    the child writes to its two streams, in some order, and exits with a
    code. *)
Inductive Stream : Type := stdout | stderr.

Inductive ChildProcess : Type :=
| SpawnFailure (e : Error)
| Ran (writes : list (Stream * string)) (exitCode : Z).

(** Modelled from the spec: the [ExecutionResult] of section 3. *)
Record ExecutionResult := mkResult {
  success : bool;
  output : string;
  error : string
}.

Definition written (s : Stream) (writes : list (Stream * string)) : string :=
  join "" (omap (λ w, match w.1, s with
                      | stdout, stdout | stderr, stderr => Some w.2
                      | _, _ => None
                      end) writes).

Section Execute.

Variable spawn : string → list string → ChildProcess.

(** Modelled from the spec: [src/utils/command-executor.js], which
    defines [executeCommand], is not among the sources (only its
    callers are).  Section 4.4: spawn [command] with [argv], collect
    everything written to standard output and to standard error in
    write order, resolve [success] as "exit code is exactly 0"; when
    the process cannot be spawned, resolve [success=false],
    [output=""] and [error] the failure's message; never throw. *)
Definition executeCommand (command : string) (argv : list string)
    : Result ExecutionResult :=
  match spawn command argv with
  | SpawnFailure e => Ok (mkResult false "" (message e))
  | Ran writes exitCode =>
      Ok (mkResult (Z.eqb exitCode 0) (written stdout writes)
            (written stderr writes))
  end.

End Execute.

End CommandExecutor.

(** * Vocabulary of the properties *)

(** The descriptors of a listing: the documents that pass
    [ToolInputSchema], in listing order. *)
Definition descriptors (files : list (string * FileContent)) : list ToolSchema :=
  omap (λ f, match f.2 with
             | Document schema => ToolInputSchema_safeParse schema
             | _ => None
             end) files.

Definition declaresProperties (toolSchema : ToolSchema) : bool :=
  match properties toolSchema with Some _ => true | None => false end.

Definition names (l : list ToolSchema) : gset string := list_to_set (name <$> l).



Definition malformed (content : FileContent) : bool :=
  match content with
  | Document schema =>
      match ToolInputSchema_safeParse schema with
      | Some _ => false
      | None => true
      end
  | _ => false
  end.

Definition index (toolSchemas : list ToolSchema) (s : gmap string ToolSchema)
    : gmap string ToolSchema :=
  foldl (λ acc t, <[name t := t]> acc) s toolSchemas.


(** zod's verdict on a property value, and its reason for turning the
    value down, worked out with no path at hand. *)
Definition accepts (t : ZodType) (v : option JSON) : bool :=
  match parse t [] v with
  | Ok (Valid _) => true
  | _ => false
  end.



(** The properties of the shape that the object has, with its values. *)
Definition strip (shape : ZodObject) (data : Obj) : Obj :=
  omap (λ e, pair e.1 <$> obj_get e.1 data) shape.




Definition isString (v : JSON) : bool :=
  match v with JStr _ => true | _ => false end.

(** [typeof v === 'object'] for a value that is not [null]: the values on
    which [in] does not throw. *)
Definition isObjectValue (v : JSON) : bool :=
  match v with JObj _ | JArr _ => true | _ => false end.

(** None of the names is one a plain object inherits: on such names
    [data[key]] and [key in data] only see own properties. *)
Definition ordinary (keys : list string) : bool :=
  forallb (λ key, negb (inherited key)) keys.

(** No property of the object is itself an object with a member named
    [__proto__]: that member is the one thing a record validator leaves
    out of the copy it hands on, so that on such objects the copy is the
    value. *)
Definition copiedWhole (o : Obj) : bool :=
  forallb (λ e, match e.2 with
                | JObj members => negb (obj_has "__proto__" members)
                | _ => true
                end) o.

(** ** Sample documents *)

(** The example schema of the README ("Example Schema Definition"). *)
Definition my_tool : JSON :=
  JObj [ ("name", JStr "my-tool");
         ("description", JStr "Description of what this tool does");
         ("inputSchema",
          JObj [ ("type", JStr "object");
                 ("properties",
                  JObj [ ("param1",
                          JObj [ ("type", JStr "string");
                                 ("description", JStr "Description of parameter 1") ]);
                         ("param2",
                          JObj [ ("type", JStr "boolean");
                                 ("description", JStr "Description of parameter 2");
                                 ("default", JBool false) ]) ]);
                 ("required", JArr [JStr "param1"]) ]) ].

(** A tool that takes no arguments: its [inputSchema] has no
    [properties]. *)
Definition status_tool : JSON :=
  JObj [ ("name", JStr "status");
         ("description", JStr "Show the current status");
         ("inputSchema", JObj [ ("type", JStr "object") ]) ].


(** A tool with an enum of integers. *)
Definition level_tool : JSON :=
  JObj [ ("name", JStr "level");
         ("description", JStr "Set the level");
         ("inputSchema",
          JObj [ ("type", JStr "object");
                 ("properties",
                  JObj [ ("level",
                          JObj [ ("type", JStr "integer");
                                 ("enum", JArr [JInt 1; JInt 2; JInt 3]) ]) ]);
                 ("required", JArr [JStr "level"]) ]) ].

(** A descriptor that passes [ToolInputSchema] although the schema of its
    property is [null]. *)
Definition null_property_tool : JSON :=
  JObj [ ("name", JStr "broken");
         ("description", JStr "A tool with a null property schema");
         ("inputSchema",
          JObj [ ("type", JStr "object");
                 ("properties", JObj [ ("target", JNull) ]) ]) ].


Definition SyntaxError : Error := mkError "Unexpected token } in JSON at position 12".

(** A descriptor for the [aio-login] tool with two of the flags its
    handler reads. *)
Definition aio_login : JSON :=
  JObj [ ("name", JStr "aio-login");
         ("description", JStr "Authenticate with Adobe I/O services");
         ("inputSchema",
          JObj [ ("type", JStr "object");
                 ("properties",
                  JObj [ ("force", JObj [ ("type", JStr "boolean");
                                          ("default", JBool false) ]);
                         ("context", JObj [ ("type", JStr "string") ]) ]) ]) ].

(** A [tools/call] request. *)
Definition call (name : string) (arguments : Obj) : JSON :=
  JObj [ ("method", JStr "tools/call");
         ("params", JObj [ ("name", JStr name); ("arguments", JObj arguments) ]) ].

(** Modules whose handlers all reject, and modules whose handlers all
    resolve. *)
Definition failing : string → Result ToolHandler :=
  λ _, Ok (λ _, Throw (mkError "spawn aio ENOENT")).

Definition succeeding : string → Result ToolHandler :=
  λ _, Ok (λ _, Ok (textResponse "done")).

(** * Further operations *)

(** ** The rest of the schema manager *)

(** [getAllSchemas()]: the stored documents.  A [Map] hands its values
    out in insertion order; the [gmap] does not keep that order, so the
    list stands for the array up to the order of its elements. *)
Definition getAllSchemas (m : SDKSchemaManager) : list JSON :=
  document <$> (map_to_list (schemas m)).*2.

(** The object [getSchemaInfo] returns. *)
Module Info.
Record t := mk {
  name : string;
  description : string;
  properties : list string;
  required : list string;
  hasDefaults : bool;
  hasZodValidation : bool
}.
End Info.

(** ['default' in p]: [in] throws on a primitive. *)
Definition hasDefault (p : JSON) : Result bool :=
  match p with
  | JObj o => Ok (obj_has "default" o)
  | JArr _ => Ok false
  | _ => Throw (inOperatorError "default" p)
  end.

(** [values.some(p => 'default' in p)]: stops at the first hit. *)
Fixpoint someDefault (values : list JSON) : Result bool :=
  match values with
  | [] => Ok false
  | p :: values' =>
      d ← hasDefault p;
      if d : bool then Ok true else someDefault values'
  end.

(** [getSchemaInfo(schemaName)]; [None] is [null]. *)
Definition getSchemaInfo (m : SDKSchemaManager) (schemaName : string)
    : Result (option Info.t) :=
  match getSchema m schemaName with
  | None => Ok None
  | Some schema =>
      let props := default [] (properties schema) in
      d ← someDefault props.*2;
      Ok (Some (Info.mk (name schema) (description schema) (obj_keys props)
                  (default [] (required schema)) d
                  (bool_decide (is_Some (zodSchemas m !! schemaName)))))
  end.

(** [listToolSchemas()] of [src/tools/index.js]: load when the index is
    empty, then list. *)
Definition listToolSchemas (schemasDir : Directory) (m : SDKSchemaManager)
    : SDKSchemaManager * Result (list JSON) :=
  if Nat.eqb (size (schemas m)) 0 then
    match loadSchemas schemasDir m with
    | (m', Ok _) => (m', Ok (getAllSchemas m'))
    | (m', Throw e) => (m', Throw e)
    end
  else (m, Ok (getAllSchemas m)).

(** The handler registered for [ListToolsRequestSchema]: [{ tools: await
    listToolSchemas() }], with nothing around the [await]. *)
Definition listTools (schemasDir : Directory) (m : SDKSchemaManager)
    : SDKSchemaManager * Result (list JSON) :=
  listToolSchemas schemasDir m.

(** ** Two tool handlers *)

Definition LF : string := String (Ascii.ascii_of_nat 10) EmptyString.

(** [values.join(sep)] on an array of values. *)
Definition Array_join (sep : string) (values : list JSON) : string :=
  join sep (map (λ x, match x with JNull => "" | _ => toString x end) values).

(** A value inside a template literal. *)
Definition template (v : option JSON) : string :=
  match v with
  | None => "undefined"
  | Some x => toString x
  end.

(** [v === 'literal']. *)
Definition isLiteral (v : option JSON) (literal : string) : bool :=
  match v with
  | Some (JStr s) => String.eqb s literal
  | _ => false
  end.

(** What a handler did besides answering: the lines it logged and the
    commands it handed to [executeCommand], in order. *)
Inductive HandlerEvent : Type :=
| Logged (line : string)
| Executed (command : string) (cmdArgs : list JSON).

Record HandlerRun := mkRun {
  trace : list HandlerEvent;
  answered : Result ToolResponse
}.

Definition commands (run : HandlerRun) : list (string * list JSON) :=
  omap (λ ev, match ev with
              | Executed command cmdArgs => Some (command, cmdArgs)
              | Logged _ => None
              end) (trace run).

Section Handlers.

(** [executeCommand] of [src/utils/command-executor.js], which is not
    among the sources: the handlers are embedded over whatever it
    answers. *)
Variable executeCommand :
  string → list JSON → Result CommandExecutor.ExecutionResult.

(** [handleAioWhere(args)] ([aio-where.js]). *)
Definition handleAioWhere (args : Obj) : HandlerRun :=
  let command := "aio" in
  let cmdArgs := [JStr "where"] in
  let commandLine := command +:+ " " +:+ Array_join " " cmdArgs in
  mkRun [Logged ("Running: " +:+ commandLine); Executed command cmdArgs]
    (result ← executeCommand command cmdArgs;
     if CommandExecutor.success result then
       Ok (textResponse
             ("📍 **Current Adobe I/O Configuration:**" +:+ LF +:+ LF
              +:+ "📋 Command: " +:+ commandLine +:+ LF +:+ LF
              +:+ "📄 Output:" +:+ LF +:+ CommandExecutor.output result +:+ LF +:+ LF
              +:+ "⚠️ **Please confirm:** Do you want to deploy to this org/project/workspace?"))
     else
       Ok (textResponse
             ("❌ Failed to get Adobe I/O configuration!" +:+ LF +:+ LF
              +:+ "📋 Command: " +:+ commandLine +:+ LF +:+ LF
              +:+ "📄 Error:" +:+ LF +:+ CommandExecutor.error result +:+ LF +:+ LF
              +:+ "📄 Output:" +:+ LF +:+ CommandExecutor.output result +:+ LF +:+ LF
              +:+ "💡 **Suggestion**: You may need to run 'aio console ws select' to configure your workspace first."))).

(** The first [switch] of [handleAioConfigureGlobal]: the arguments of
    the command, or the text of the refusal it returns at once. *)
Definition configureArgs (args : Obj) : string + list JSON :=
  let action := obj_get "action" args in
  let org := obj_get "org" args in
  let project := obj_get "project" args in
  let workspace := obj_get "workspace" args in
  if isLiteral action "list-orgs" then inr [JStr "console"; JStr "org"; JStr "list"]
  else if isLiteral action "list-projects" then
    inr [JStr "console"; JStr "project"; JStr "list"]
  else if isLiteral action "list-workspaces" then
    inr [JStr "console"; JStr "workspace"; JStr "list"]
  else if isLiteral action "select-org" then
    match org with
    | Some value =>
        if truthy org then inr [JStr "console"; JStr "org"; JStr "select"; value]
        else inl "❌ Error: Organization name is required for 'select-org' action. Please provide the 'org' parameter."
    | None => inl "❌ Error: Organization name is required for 'select-org' action. Please provide the 'org' parameter."
    end
  else if isLiteral action "select-project" then
    match project with
    | Some value =>
        if truthy project then inr [JStr "console"; JStr "project"; JStr "select"; value]
        else inl "❌ Error: Project name is required for 'select-project' action. Please provide the 'project' parameter."
    | None => inl "❌ Error: Project name is required for 'select-project' action. Please provide the 'project' parameter."
    end
  else if isLiteral action "select-workspace" then
    match workspace with
    | Some value =>
        if truthy workspace then
          inr [JStr "console"; JStr "workspace"; JStr "select"; value]
        else inl "❌ Error: Workspace name is required for 'select-workspace' action. Please provide the 'workspace' parameter."
    | None => inl "❌ Error: Workspace name is required for 'select-workspace' action. Please provide the 'workspace' parameter."
    end
  else if isLiteral action "show-current" then inr [JStr "where"]
  else
    inl ("❌ Error: Unknown action '" +:+ template action
         +:+ "'. Valid actions are: list-orgs, list-projects, list-workspaces, select-org, select-project, select-workspace, show-current").

(** The second [switch]: the heading of the success text. *)
Definition actionText (args : Obj) : string :=
  let action := obj_get "action" args in
  if isLiteral action "list-orgs" then "📋 **Available Organizations:**"
  else if isLiteral action "list-projects" then "📋 **Available Projects:**"
  else if isLiteral action "list-workspaces" then "📋 **Available Workspaces:**"
  else if isLiteral action "select-org" then
    "✅ **Organization Selected:** " +:+ template (obj_get "org" args)
  else if isLiteral action "select-project" then
    "✅ **Project Selected:** " +:+ template (obj_get "project" args)
  else if isLiteral action "select-workspace" then
    "✅ **Workspace Selected:** " +:+ template (obj_get "workspace" args)
  else if isLiteral action "show-current" then "📋 **Current Configuration:**"
  else "".

(** [handleAioConfigureGlobal(args)] ([aio-configure-global.js]). *)
Definition handleAioConfigureGlobal (args : Obj) : HandlerRun :=
  let action := obj_get "action" args in
  let verbose := obj_get "verbose" args in
  let command := "aio" in
  match configureArgs args with
  | inl refusal => mkRun [] (Ok (textResponse refusal))
  | inr cmdArgs =>
      let cmdArgs :=
        if truthy verbose && negb (isLiteral action "show-current")
        then (cmdArgs ++ [JStr "--verbose"])%list else cmdArgs in
      let commandLine := command +:+ " " +:+ Array_join " " cmdArgs in
      mkRun [Logged ("Running: " +:+ commandLine); Executed command cmdArgs]
        (result ← executeCommand command cmdArgs;
         if CommandExecutor.success result then
           Ok (textResponse
                 (actionText args +:+ LF +:+ LF
                  +:+ "📋 Command: " +:+ commandLine +:+ LF +:+ LF
                  +:+ "📄 Output:" +:+ LF +:+ CommandExecutor.output result))
         else
           Ok (textResponse
                 ("❌ **Configuration Change Failed!**" +:+ LF +:+ LF
                  +:+ "📋 Command: " +:+ commandLine +:+ LF +:+ LF
                  +:+ "📄 Error:" +:+ LF +:+ CommandExecutor.error result +:+ LF +:+ LF
                  +:+ "📄 Output:" +:+ LF +:+ CommandExecutor.output result +:+ LF +:+ LF
                  +:+ "💡 **Suggestions:**" +:+ LF
                  +:+ "- Make sure you're logged in with 'aio-login'" +:+ LF
                  +:+ "- Check your current configuration with 'aio-where'")))
  end.

End Handlers.
(** * Properties *)

(** ** Objects *)

Section Objects.

Context {V : Type}.
Implicit Types (o : list (string * V)) (k : string).

Lemma obj_get_None k o : obj_get k o = None ↔ k ∉ obj_keys o.
Proof.
  induction o as [|[k' v] o IH]; simpl.
  - split; [intros _; apply not_elem_of_nil | done].
  - rewrite not_elem_of_cons. destruct (String.eqb_spec k k') as [->|Hne].
    + split; [done | intros [? _]; done].
    + rewrite IH. naive_solver.
Qed.

Lemma obj_get_Some_key k o v : obj_get k o = Some v → k ∈ obj_keys o.
Proof.
  intros H. destruct (decide (k ∈ obj_keys o)) as [|Hn]; [done|].
  apply obj_get_None in Hn. congruence.
Qed.

Lemma obj_has_true k o : obj_has k o = true ↔ k ∈ obj_keys o.
Proof.
  unfold obj_has. destruct (obj_get k o) eqn:E.
  - split; [intros _; by eapply obj_get_Some_key | done].
  - apply obj_get_None in E. split; [done | intros; by exfalso].
Qed.

Lemma obj_get_put k k' v o :
  obj_get k' (obj_put k v o) =
    if String.eqb k' k then (λ _, v) <$> obj_get k o else obj_get k' o.
Proof.
  induction o as [|[k0 v0] o IH]; simpl; [by destruct (String.eqb k' k)|].
  destruct (String.eqb_spec k k0) as [->|Hne]; simpl.
  - by destruct (String.eqb_spec k' k0).
  - rewrite IH. destruct (String.eqb_spec k' k) as [->|?]; [|done].
    by destruct (String.eqb_spec k k0).
Qed.

Lemma obj_get_add k k' v o :
  obj_get k o = None →
  obj_get k' (obj_add k v o) = if String.eqb k' k then Some v else obj_get k' o.
Proof.
  induction o as [|[k0 v0] o IH]; simpl; [done|].
  destruct (String.eqb_spec k k0) as [->|Hne]; [done|]. intros Hnone.
  destruct (precedes k k0); simpl.
  - by destruct (String.eqb_spec k' k).
  - rewrite (IH Hnone). destruct (String.eqb_spec k' k) as [->|?]; [|done].
    by destruct (String.eqb_spec k k0).
Qed.

Lemma obj_get_set_eq k v o : obj_get k (obj_set k v o) = Some v.
Proof.
  unfold obj_set, obj_has. destruct (obj_get k o) eqn:E.
  - by rewrite obj_get_put, String.eqb_refl, E.
  - by rewrite obj_get_add, String.eqb_refl.
Qed.

Lemma obj_get_set_ne k k' v o : k ≠ k' → obj_get k' (obj_set k v o) = obj_get k' o.
Proof.
  intros Hne. unfold obj_set, obj_has. destruct (obj_get k o) eqn:E.
  - rewrite obj_get_put. by destruct (String.eqb_spec k' k).
  - rewrite obj_get_add by done. by destruct (String.eqb_spec k' k).
Qed.

Lemma obj_keys_put k v o : obj_keys (obj_put k v o) = obj_keys o.
Proof.
  induction o as [|[k0 v0] o IH]; simpl; [done|].
  destruct (String.eqb k k0); simpl; by rewrite ?IH.
Qed.

Lemma obj_keys_add k v o : obj_keys (obj_add k v o) ≡ₚ k :: obj_keys o.
Proof.
  induction o as [|[k0 v0] o IH]; simpl; [done|].
  destruct (precedes k k0); simpl; [done|]. rewrite IH. apply Permutation_swap.
Qed.

Lemma obj_keys_set k k' v o :
  k' ∈ obj_keys (obj_set k v o) ↔ k' = k ∨ k' ∈ obj_keys o.
Proof.
  unfold obj_set. destruct (obj_has k o) eqn:E.
  - rewrite obj_keys_put. apply obj_has_true in E. naive_solver.
  - rewrite obj_keys_add, elem_of_cons. naive_solver.
Qed.

Lemma obj_set_NoDup k v o : NoDup (obj_keys o) → NoDup (obj_keys (obj_set k v o)).
Proof.
  unfold obj_set. destruct (obj_has k o) eqn:E; intros Hnd.
  - by rewrite obj_keys_put.
  - rewrite obj_keys_add. apply NoDup_cons. split; [|done].
    intros Hin%obj_has_true. congruence.
Qed.

Lemma obj_set_Forall (P : string * V → Prop) k v o :
  (∀ k0, P (k0, v)) → Forall P o → Forall P (obj_set k v o).
Proof.
  intros Hv. unfold obj_set. destruct (obj_has k o); induction o as [|[k0 v0] o IH];
    simpl; intros Ho; try (apply Forall_cons in Ho as [H0 Ho]).
  - done.
  - destruct (String.eqb k k0); apply Forall_cons; split; auto.
  - by apply Forall_singleton.
  - destruct (precedes k k0); repeat (apply Forall_cons; split); auto.
Qed.

End Objects.

(** A property named by an array index is created before the properties
    that are enumerated after it; any other property is created last. *)
Example obj_set_array_index :
  obj_set "0" (JBool true) [("b", JNull)] = [("0", JBool true); ("b", JNull)] ∧
  obj_set "10" JNull [("2", JNull); ("b", JNull)]
    = [("2", JNull); ("10", JNull); ("b", JNull)] ∧
  obj_set "01" JNull [("b", JNull)] = [("b", JNull); ("01", JNull)] ∧
  obj_set "b" (JBool true) [("b", JNull); ("c", JNull)]
    = [("b", JBool true); ("c", JNull)].
Proof. repeat split. Qed.

(** A numeral beyond the doubles is an infinity, which is not an
    integer. *)
Example isInteger_beyond_doubles :
  isInteger (inject_Z (10 ^ 400)) = false ∧ isInteger (inject_Z (10 ^ 21)) = true ∧
  Number_toString (inject_Z (- 10 ^ 400)) = "-Infinity".
Proof. repeat split; vm_compute; reflexivity. Qed.

(** ** Loading *)

(** The step of an induction along a listing: expose the loop body and
    the descriptors of the remaining files. *)
Ltac load_step files :=
  unfold loadFile, descriptors; simpl; fold (descriptors files).


Lemma createZodSchema_schemas toolSchema m m' :
  createZodSchema toolSchema m = Ok m' →
  schemas m' = schemas m ∧ console m' = console m ∧
  dom (zodSchemas m') =
    (if declaresProperties toolSchema then {[name toolSchema]} ∪ dom (zodSchemas m)
     else dom (zodSchemas m)).
Proof.
  unfold createZodSchema, declaresProperties.
  destruct (properties toolSchema) as [props|].
  - destruct (compileProperties props _ []) as [shape|e]; simpl; [|done].
    intros [= <-]; simpl. by rewrite dom_insert_L.
  - by intros [= <-].
Qed.


(** What a load that runs to completion leaves in the two maps. *)
Lemma loadFiles_Ok_dom files m m' :
  loadFiles files m = (m', Ok ()) →
  dom (schemas m') = dom (schemas m) ∪ names (descriptors files) ∧
  dom (zodSchemas m') =
    dom (zodSchemas m) ∪ names (filter (λ t, declaresProperties t = true) (descriptors files)).
Proof.
  revert m. induction files as [|[file content] files IH]; intros m; simpl.
  - intros [= <-]. unfold names; simpl. split; set_solver.
  - load_step files.
    destruct content as [e|e|schema]; try done.
    destruct (ToolInputSchema_safeParse schema) as [toolSchema|] eqn:Hparse.
    + destruct (createZodSchema toolSchema _) as [m2|e] eqn:Hc; [|done].
      apply createZodSchema_schemas in Hc as (Hs & _ & Hz); simpl in *.
      intros Hload. apply IH in Hload as [-> ->]. rewrite Hs, Hz, dom_insert_L.
      unfold names. rewrite filter_cons.
      destruct (declaresProperties toolSchema); case_decide; try done; simpl.
      * split; set_solver.
      * split; set_solver.
    + intros Hload. apply IH in Hload as [-> ->]. done.
Qed.

(** The validator cache never gets ahead of the index, on any exit. *)
Lemma loadFiles_subset files m :
  dom (zodSchemas m) ⊆ dom (schemas m) →
  dom (zodSchemas (loadFiles files m).1) ⊆ dom (schemas (loadFiles files m).1).
Proof.
  revert m. induction files as [|[file content] files IH]; intros m Hm; simpl; [done|].
  unfold loadFile. destruct content as [e|e|schema]; try done.
  destruct (ToolInputSchema_safeParse schema) as [toolSchema|].
  - destruct (createZodSchema toolSchema _) as [m2|e] eqn:Hc.
    + apply IH. apply createZodSchema_schemas in Hc as (Hs & _ & Hz); simpl in *.
      rewrite Hs, Hz, dom_insert_L. destruct (declaresProperties toolSchema); set_solver.
    + simpl. rewrite dom_insert_L. set_solver.
  - by apply IH.
Qed.

Lemma loadSchemas_maps schemasDir m :
  schemas (loadSchemas schemasDir m).1 =
    schemas (match schemasDir with Throw _ => m | Ok files => (loadFiles (jsonFiles files) m).1 end) ∧
  zodSchemas (loadSchemas schemasDir m).1 =
    zodSchemas (match schemasDir with Throw _ => m | Ok files => (loadFiles (jsonFiles files) m).1 end).
Proof.
  unfold loadSchemas. destruct schemasDir as [files|e]; simpl; [|done].
  by destruct (loadFiles (jsonFiles files) m) as [m' [[]|e]].
Qed.

Lemma loadSchemas_Ok schemasDir m m' :
  loadSchemas schemasDir m = (m', Ok ()) →
  ∃ files m0, schemasDir = Ok files ∧ loadFiles (jsonFiles files) m = (m0, Ok ()) ∧
    m' = console_error (LoadedSchemas (size (schemas m0))) m0.
Proof.
  unfold loadSchemas. destruct schemasDir as [files|e]; simpl; [|done].
  destruct (loadFiles (jsonFiles files) m) as [m0 [[]|e]] eqn:E; [|done].
  intros [= <-]. by exists files, m0.
Qed.

Lemma loadFiles_Ok_schemas files m m' :
  loadFiles files m = (m', Ok ()) →
  schemas m' = index (descriptors files) (schemas m).
Proof.
  revert m. induction files as [|[file content] files IH]; intros m; simpl.
  - by intros [= <-].
  - load_step files.
    destruct content as [e|e|schema]; try done.
    destruct (ToolInputSchema_safeParse schema) as [toolSchema|].
    + destruct (createZodSchema toolSchema _) as [m2|e] eqn:Hc; [|done].
      apply createZodSchema_schemas in Hc as (Hs & _); simpl in *.
      intros Hload. apply IH in Hload as ->. by rewrite Hs.
    + intros Hload. by apply IH in Hload as ->.
Qed.

Lemma index_distinct toolSchemas s :
  NoDup (name <$> toolSchemas) →
  (∀ t, t ∈ toolSchemas → s !! name t = None) →
  size (index toolSchemas s) = size s + length toolSchemas ∧
  (∀ t, t ∈ toolSchemas → index toolSchemas s !! name t = Some t) ∧
  (∀ n, n ∉ name <$> toolSchemas → index toolSchemas s !! n = s !! n).
Proof.
  revert s. induction toolSchemas as [|t l IH]; intros s Hnd Hfresh; simpl.
  - split; [lia|]. split; [|done]. intros t Ht. by apply elem_of_nil in Ht.
  - rewrite fmap_cons in Hnd. apply NoDup_cons in Hnd as [Hnin Hnd].
    destruct (IH (<[name t := t]> s) Hnd) as (Hsize & Hin & Hout).
    { intros t' Ht'. rewrite lookup_insert_ne.
      - apply Hfresh. by right.
      - intros Heq. apply Hnin. rewrite Heq. by apply list_elem_of_fmap_2. }
    fold (index l (<[name t:=t]> s)) in *.
    split; [|split].
    + rewrite Hsize, map_size_insert_None; [lia|]. apply Hfresh. by left.
    + intros t' [->|Ht']%elem_of_cons; [|by apply Hin].
      rewrite Hout by done. apply lookup_insert_eq.
    + intros n Hn. apply not_elem_of_cons in Hn as [Hne Hn].
      rewrite Hout by done. by rewrite lookup_insert_ne.
Qed.




(** C1 (as stated, refuted): a descriptor whose [inputSchema] has no
    [properties] is indexed by a completed load, but [createZodSchema]
    returns before caching a validator for it, so the name sets of the
    two maps differ. *)
Lemma index_cache_name_sets_differ :
  let loaded := loadSchemas (Ok [("status.json", Document status_tool)]) constructor in
  loaded.2 = Ok () ∧ dom (schemas loaded.1) ≠ dom (zodSchemas loaded.1).
Proof.
  split; [reflexivity|]. intros Heq.
  assert (H : "status" ∈ dom (schemas
    (loadSchemas (Ok [("status.json", Document status_tool)]) constructor).1)).
  { apply elem_of_dom. vm_compute. eauto. }
  rewrite Heq in H. apply elem_of_dom in H as [shape H]. vm_compute in H. discriminate.
Qed.

(** Such a tool is listed but cannot be called. *)
Example tool_without_properties_has_no_validator :
  validateInput (loadSchemas (Ok [("status.json", Document status_tool)]) constructor).1
    "status" (Some (JObj []))
  = Ok (valid_false "Schema not found: status").
Proof. vm_compute. reflexivity. Qed.

(** C1 (amended): on a freshly constructed manager, every name the
    validator cache holds after [loadSchemas] is also in the index, whether
    the load completes or throws; when it completes, the index holds
    exactly the names of the descriptors that passed the shape validation,
    the cache holds exactly the names of those among them that declare
    [properties], and the two name sets are equal when every loaded
    descriptor declares [properties]. *)
Theorem validator_cache_follows_index schemasDir m' outcome :
  loadSchemas schemasDir constructor = (m', outcome) →
  dom (zodSchemas m') ⊆ dom (schemas m') ∧
  (outcome = Ok () →
   ∃ files, schemasDir = Ok files ∧
     dom (schemas m') = names (descriptors (jsonFiles files)) ∧
     dom (zodSchemas m') =
       names (filter (λ t, declaresProperties t = true) (descriptors (jsonFiles files))) ∧
     (forallb declaresProperties (descriptors (jsonFiles files)) = true →
      dom (zodSchemas m') = dom (schemas m'))).
Proof.
  intros Hload. split.
  - destruct (loadSchemas_maps schemasDir constructor) as [Hs Hz].
    rewrite Hload in Hs, Hz. simpl in Hs, Hz. rewrite Hs, Hz.
    destruct schemasDir as [files|e]; [|done].
    by apply loadFiles_subset.
  - intros ->. apply loadSchemas_Ok in Hload as (files & m0 & -> & Hfiles & ->).
    exists files. split; [done|]. simpl.
    apply loadFiles_Ok_dom in Hfiles as [-> ->]. simpl.
    rewrite !dom_empty_L, !(left_id_L ∅ (∪)). split; [done|]. split; [done|].
    intros Hall. f_equal. f_equal.
    induction (descriptors (jsonFiles files)) as [|t l IH]; [done|].
    simpl in Hall. apply andb_true_iff in Hall as [Ht Hall].
    rewrite filter_cons. rewrite decide_True by done. by rewrite IH.
Qed.

Lemma validator_cache_follows_index_witness :
  dom (zodSchemas (loadSchemas (Ok [("my-tool.json", Document my_tool);
                                    ("status.json", Document status_tool)])
                     constructor).1)
  ⊆ dom (schemas (loadSchemas (Ok [("my-tool.json", Document my_tool);
                                   ("status.json", Document status_tool)])
                    constructor).1).
Proof.
  refine (proj1 (validator_cache_follows_index
    (Ok [("my-tool.json", Document my_tool); ("status.json", Document status_tool)])
    _ (Ok ()) _)).
  vm_compute. reflexivity.
Defined.


(** A [null] property schema passes the shape validation and then makes
    [createZodSchema] throw: the descriptor stays in the index, without a
    validator, and the load is over. *)
Example null_property_schema_aborts_load :
  let loaded := loadSchemas (Ok [ ("broken.json", Document null_property_tool);
                                  ("my-tool.json", Document my_tool) ]) constructor in
  malformed (Document null_property_tool) = false ∧
  loaded.2 = Throw (TypeError "Cannot read properties of null (reading 'type')") ∧
  dom (schemas loaded.1) = {["broken"]} ∧
  zodSchemas loaded.1 = ∅.
Proof.
  repeat split; vm_compute; reflexivity.
Qed.



(** ** Reloading *)

(** The console is only appended to: what a load writes to the two maps,
    and how it ends, does not depend on what was logged before. *)
Lemma loadFiles_console files s z c :
  loadFiles files (mkManager s z c) =
    (mkManager (schemas (loadFiles files (mkManager s z [])).1)
       (zodSchemas (loadFiles files (mkManager s z [])).1)
       (c ++ console (loadFiles files (mkManager s z [])).1)%list,
     (loadFiles files (mkManager s z [])).2).
Proof.
  revert s z c. induction files as [|[file content] files IH]; intros s z c; simpl.
  - by rewrite app_nil_r.
  - unfold loadFile. destruct content as [e|e|schema]; simpl; try by rewrite app_nil_r.
    destruct (ToolInputSchema_safeParse schema) as [toolSchema|].
    + unfold createZodSchema; simpl. destruct (properties toolSchema) as [props|].
      * destruct (compileProperties props _ []) as [shape|e]; simpl.
        -- apply IH.
        -- by rewrite app_nil_r.
      * apply IH.
    + unfold console_error; simpl. rewrite IH.
      rewrite (IH s z [InvalidSchemaStructure file]). simpl. by rewrite <- app_assoc.
Qed.

Lemma reloadSchemas_maps schemasDir m :
  schemas (reloadSchemas schemasDir m).1 = schemas (loadSchemas schemasDir constructor).1 ∧
  zodSchemas (reloadSchemas schemasDir m).1 = zodSchemas (loadSchemas schemasDir constructor).1 ∧
  (reloadSchemas schemasDir m).2 = (loadSchemas schemasDir constructor).2.
Proof.
  unfold reloadSchemas, loadSchemas, constructor.
  destruct schemasDir as [files|e]; simpl; [|done].
  rewrite (loadFiles_console (jsonFiles files) ∅ ∅ (console m)).
  by destruct (loadFiles (jsonFiles files) (mkManager ∅ ∅ [])) as [m0 [[]|e]].
Qed.

Lemma validateInput_zodSchemas m1 m2 schemaName input :
  zodSchemas m1 = zodSchemas m2 →
  validateInput m1 schemaName input = validateInput m2 schemaName input.
Proof. unfold validateInput. by intros ->. Qed.

(** C7: for every directory of descriptor documents, [reloadSchemas] run
    on the manager that [loadSchemas] populated from the same, unchanged
    documents ends the way that load ended and leaves the same index and
    the same validators: the same names are indexed, with the same
    descriptors, and under every name [validateInput] gives the same
    verdict on every input. *)
Theorem reload_is_behaviorally_equivalent schemasDir :
  let before := (loadSchemas schemasDir constructor).1 in
  let after := (reloadSchemas schemasDir before).1 in
  (reloadSchemas schemasDir before).2 = (loadSchemas schemasDir constructor).2 ∧
  dom (schemas after) = dom (schemas before) ∧
  dom (zodSchemas after) = dom (zodSchemas before) ∧
  (∀ schemaName, getSchema after schemaName = getSchema before schemaName) ∧
  (∀ schemaName input,
     validateInput after schemaName input = validateInput before schemaName input).
Proof.
  intros before after.
  destruct (reloadSchemas_maps schemasDir before) as (Hs & Hz & Hr).
  fold after in Hs, Hz. fold before in Hs, Hz.
  split; [done|]. split; [by rewrite Hs|]. split; [by rewrite Hz|].
  split; [intros; unfold getSchema; by rewrite Hs|].
  intros. by apply validateInput_zodSchemas.
Qed.

(** ** Validation *)









(** The same tool called with [param1] supplied as a string is accepted. *)
Example validateInput_accepts_supplied_property :
  validateInput (loadSchemas (Ok [("my-tool.json", Document my_tool)]) constructor).1
    "my-tool" (Some (JObj [("param1", JStr "x")]))
  = Ok (valid_true [("param1", JStr "x")]).
Proof. vm_compute. reflexivity. Qed.

(** ** Enums *)

Lemma enum_has_spec s values : enum_has s values = true ↔ JStr s ∈ values.
Proof.
  unfold enum_has. rewrite existsb_exists. split.
  - intros (x & Hin & Hx). destruct x; try done.
    apply String.eqb_eq in Hx as ->. by apply list_elem_of_In.
  - intros Hin. exists (JStr s). split; [by apply list_elem_of_In | apply String.eqb_refl].
Qed.

Lemma array_includes_spec xs key : array_includes xs key = true ↔ key ∈ xs.
Proof.
  unfold array_includes. rewrite existsb_exists. split.
  - intros (x & Hin & ->%String.eqb_eq). by apply list_elem_of_In.
  - intros Hin. exists key. split; [by apply list_elem_of_In | apply String.eqb_refl].
Qed.

(** An enum that is a string instead of an array admits the code points
    of the string and throws on every other value. *)
Example string_as_enum :
  codePoints "abc" = ["a"; "b"; "c"] ∧
  parse (ZodEnum (JStr "abc")) ["k"] (Some (JStr "a")) = Ok (Valid (Some (JStr "a"))) ∧
  parse (ZodEnum (JStr "abc")) ["k"] (Some (JStr "ab"))
    = Throw (TypeError "array.map is not a function") ∧
  parse (ZodEnum (JStr "abc")) ["k"] (Some (JInt 1))
    = Throw (TypeError "array.map is not a function").
Proof. repeat split. Qed.

(** Whatever the array handed to [z.enum] holds, the validator lets
    through the strings found in it and nothing else. *)
Lemma enum_validator required key propSchema values v :
  get "enum" propSchema = Some (JArr values) →
  ∃ t, propertyValidator required key propSchema = Ok t ∧
    (accepts t v = true ↔
       (∃ s, v = Some (JStr s) ∧ JStr s ∈ values) ∨ (v = None ∧ key ∉ required)).
Proof.
  intros Henum. unfold propertyValidator, zodTypeOf.
  destruct propSchema as [| | | | |o]; try done. simpl in *. rewrite Henum. simpl.
  destruct (array_includes required key) eqn:Hreq; eexists; (split; [done|]).
  - apply array_includes_spec in Hreq. unfold accepts; simpl.
    destruct v as [[| | |s| |]|]; simpl; try naive_solver.
    destruct (enum_has s values) eqn:Hs.
    + apply enum_has_spec in Hs. naive_solver.
    + split; [done|]. intros [(s' & [= <-] & Hin)|[[=] _]].
      apply enum_has_spec in Hin. congruence.
  - assert (key ∉ required) as Hnot.
    { intros Hin%array_includes_spec. congruence. }
    unfold accepts; simpl.
    destruct v as [[| | |s| |]|]; simpl; try naive_solver.
    destruct (enum_has s values) eqn:Hs.
    + apply enum_has_spec in Hs. naive_solver.
    + split; [done|]. intros [(s' & [= <-] & Hin)|[[=] _]].
      apply enum_has_spec in Hin. congruence.
Qed.

(** C8: an enum of literals that are not strings does not accept its
    listed values.  The descriptor [level_tool] declares the required
    property [level] as an integer with the enum [1, 2, 3];
    [createZodSchema] handles the enum after the type and with no regard
    to it, so the property is compiled to [z.enum([1, 2, 3])], which only
    ever lets strings through: the listed value [1] is rejected, with
    zod's reason for a value that is not a string. *)
Theorem integer_enum_rejects_listed_value :
  let m := (loadSchemas (Ok [("level.json", Document level_tool)]) constructor).1 in
  JInt 1 ∈ [JInt 1; JInt 2; JInt 3] ∧
  zodSchemas m !! "level" = Some [("level", ZodEnum (JArr [JInt 1; JInt 2; JInt 3]))] ∧
  validateInput m "level" (Some (JObj [("level", JInt 1)]))
    = Ok (valid_false "Validation failed: Expected 1 | 2 | 3, received number").
Proof. split; [by left|]. split; vm_compute; reflexivity. Qed.

(** Where the enum does what is asked of it: for every property schema
    whose enum is a list of string literals, the compiled validator
    accepts exactly the listed values and rejects every other value,
    whatever base type the property declares (the enum replaces the base
    type check); the property may in addition be absent exactly when it
    is not listed in [required]. *)
Theorem string_enum_accepts_exactly_listed required key propSchema values v :
  get "enum" propSchema = Some (JArr values) →
  forallb isString values = true →
  ∃ t, propertyValidator required key propSchema = Ok t ∧
    (accepts t v = true ↔
       (∃ value, v = Some value ∧ value ∈ values) ∨ (v = None ∧ key ∉ required)).
Proof.
  intros Henum Hstr.
  destruct (enum_validator required key propSchema values v Henum) as (t & Ht & Hacc).
  exists t. split; [done|]. rewrite Hacc. split.
  - intros [(s & -> & Hin)|H]; [left; eauto | by right].
  - intros [(value & -> & Hin)|H]; [|by right]. left.
    rewrite forallb_forall in Hstr. specialize (Hstr value).
    destruct value; try (by discriminate Hstr; apply list_elem_of_In). eauto.
Qed.

Lemma string_enum_accepts_exactly_listed_witness :
  ∃ t, propertyValidator [] "action"
         (JObj [("type", JStr "number");
                ("enum", JArr [JStr "list-orgs"; JStr "select-org"])]) = Ok t ∧
    (accepts t (Some (JInt 7)) = true ↔
       (∃ value, Some (JInt 7) = Some value
                 ∧ value ∈ [JStr "list-orgs"; JStr "select-org"])
       ∨ (Some (JInt 7) = None ∧ "action" ∉ @nil string)).
Proof.
  apply (string_enum_accepts_exactly_listed [] "action"
           (JObj [("type", JStr "number");
                  ("enum", JArr [JStr "list-orgs"; JStr "select-org"])])
           [JStr "list-orgs"; JStr "select-org"] (Some (JInt 7)));
    reflexivity.
Defined.

(** ** Undeclared properties *)

(** Case analysis along [parse]: on the validator, then on the value, then
    on the test the validator makes. *)
Ltac parse_inversion t v :=
  revert v; induction t as [| | | | | |values|inner IH]; intros v; simpl;
  [ destruct v as [[]|] | destruct v as [[]|] | destruct v as [[]|]
  | destruct v as [[| |q| | |]|]; try destruct (isInteger q)
  | destruct v as [[]|] | idtac
  | destruct values as [| | |chars|values|]; try done;
    destruct v as [[| | |s| |]|]; try done;
    try destruct (existsb (String.eqb s) (codePoints chars));
    try destruct (enum_has s values)
  | destruct v as [v|]; [apply IH|] ];
  simpl; try congruence.

Lemma parse_Valid t p v out : parse t p v = Ok (Valid out) → out = v.
Proof. parse_inversion t v. Qed.

Lemma parse_Invalid t p v issues : parse t p v = Ok (Invalid issues) → issues ≠ [].
Proof. parse_inversion t v. Qed.

(** An object that gets through [z.object] comes out cut down to the
    shape. *)
Lemma parse_shape_strip shape data out :
  parse_shape shape data = Ok ([], out) → out = strip shape data.
Proof.
  revert out. induction shape as [|[key t] shape IH]; intros out; simpl.
  - by intros [= <-].
  - destruct (parse t [key] (obj_get key data)) as [r|e] eqn:Hparse; simpl; [|done].
    destruct (parse_shape shape data) as [[issues out']|e]; simpl; [|done].
    unfold strip; simpl. destruct r as [value|found].
    + apply parse_Valid in Hparse as ->.
      destruct (obj_get key data) as [value|]; simpl; intros [= ? ?]; subst;
        try f_equal; by apply IH.
    + apply parse_Invalid in Hparse. intros [= H%app_eq_nil _]. by destruct H.
Qed.

(** [z.object] only reads the properties of its shape. *)
Lemma parse_shape_reads_shape shape data1 data2 :
  (∀ k, k ∈ obj_keys shape → obj_get k data1 = obj_get k data2) →
  parse_shape shape data1 = parse_shape shape data2.
Proof.
  induction shape as [|[key t] shape IH]; intros Hsame; simpl; [done|].
  rewrite (Hsame key) by (simpl; by left). rewrite IH; [done|].
  intros k Hk. apply Hsame. simpl. by right.
Qed.

Lemma strip_get shape data k :
  obj_get k (strip shape data) = if obj_has k shape then obj_get k data else None.
Proof.
  unfold strip, obj_has. induction shape as [|[key t] shape IH]; simpl; [done|].
  destruct (String.eqb_spec k key) as [->|Hne].
  - destruct (obj_get key data) as [value|] eqn:Hget; simpl.
    + by rewrite String.eqb_refl.
    + revert IH. by destruct (obj_get key shape).
  - destruct (obj_get key data) as [value|]; simpl; [|done].
    by destruct (String.eqb_spec k key).
Qed.

Lemma strip_keys shape data k : k ∈ obj_keys (strip shape data) → k ∈ obj_keys shape.
Proof.
  unfold strip, obj_keys. induction shape as [|[key t] shape IH]; simpl; [done|].
  destruct (obj_get key data) as [value|]; simpl; rewrite ?elem_of_cons; naive_solver.
Qed.

Lemma compileProperties_keys entries required acc shape :
  compileProperties entries required acc = Ok shape →
  ∀ k, k ∈ obj_keys shape ↔ k ∈ obj_keys acc ∨ k ∈ obj_keys entries.
Proof.
  revert acc. induction entries as [|[key ps] entries IH]; intros acc; simpl.
  - intros [= <-] k. rewrite elem_of_nil. naive_solver.
  - destruct (propertyValidator required key ps) as [t|e]; simpl; [|done].
    intros H k. rewrite (IH _ H k), obj_keys_set, elem_of_cons. naive_solver.
Qed.

Lemma createZodSchema_shape toolSchema props m m' :
  properties toolSchema = Some props →
  createZodSchema toolSchema m = Ok m' →
  ∃ shape, zodSchemas m' !! name toolSchema = Some shape ∧
    ∀ k, k ∈ obj_keys shape ↔ k ∈ obj_keys props.
Proof.
  unfold createZodSchema. intros ->.
  destruct (compileProperties props _ []) as [shape|e] eqn:Hc; simpl; [|done].
  intros [= <-]. exists shape. simpl. rewrite lookup_insert_eq. split; [done|].
  intros k. rewrite (compileProperties_keys _ _ _ _ Hc k). simpl.
  rewrite elem_of_nil. naive_solver.
Qed.

Lemma validateInput_valid m schemaName shape input data :
  zodSchemas m !! schemaName = Some shape →
  validateInput m schemaName input = Ok (valid_true data) →
  ∃ o, input = Some (JObj o) ∧ data = strip shape o.
Proof.
  unfold validateInput, safeParse. intros ->.
  destruct input as [[| | | | |o]|]; simpl; try done.
  destruct (parse_shape shape o) as [[issues out]|e] eqn:Hp; simpl; [|done].
  destruct issues; [|done]. intros [= <-]. exists o. split; [done|].
  by apply parse_shape_strip.
Qed.

(** ** Defaults *)

Lemma fillDefaults_keys entries result result' :
  fillDefaults entries result = Ok result' →
  ∀ k, k ∈ obj_keys result' → k ∈ obj_keys result ∨ k ∈ obj_keys entries.
Proof.
  revert result. induction entries as [|[key ps] entries IH]; intros result; simpl.
  - intros [= <-] k. by left.
  - intros H k Hk. rewrite elem_of_cons.
    assert (Hrec : ∀ r, fillDefaults entries r = Ok result' →
                        k ∈ obj_keys r ∨ k ∈ obj_keys entries)
      by (intros r Hr; by apply (IH r Hr)).
    destruct (js_in key result); [apply Hrec in H; naive_solver|].
    destruct ps as [| | | |items|o]; try done; [apply Hrec in H; naive_solver|].
    destruct (obj_get "default" o) as [d|]; [|apply Hrec in H; naive_solver].
    apply Hrec in H. rewrite obj_keys_set in H. naive_solver.
Qed.

Lemma js_in_ordinary {V} key (o : list (string * V)) :
  inherited key = false → js_in key o = obj_has key o.
Proof. intros H. unfold js_in. rewrite H. apply orb_false_r. Qed.

Lemma ordinary_elem keys key : ordinary keys = true → key ∈ keys → inherited key = false.
Proof.
  unfold ordinary. rewrite forallb_forall. intros H Hin%list_elem_of_In.
  by apply negb_true_iff, H.
Qed.

(** On names that are not inherited the loop is total on object-valued
    property schemas and fills exactly the absent keys. *)
Lemma fillDefaults_spec entries result :
  NoDup (obj_keys entries) →
  forallb (λ p, isObjectValue p.2) entries = true →
  ordinary (obj_keys entries) = true →
  ∃ result', fillDefaults entries result = Ok result' ∧
    ∀ key, obj_get key result' =
      match obj_get key result with
      | Some value => Some value
      | None => obj_get key entries ≫= get "default"
      end.
Proof.
  revert result.
  induction entries as [|[key ps] entries IH]; intros result Hnd Hobj Hord; simpl in *.
  - exists result. split; [done|]. intros k. by destruct (obj_get k result).
  - apply NoDup_cons in Hnd as [Hnin Hnd]. apply andb_true_iff in Hobj as [Hps Hobj].
    apply andb_true_iff in Hord as [Hkey%negb_true_iff Hord].
    assert (IH' := λ r, IH r Hnd Hobj Hord). clear IH. rename IH' into IH.
    assert (Hfresh : obj_get key entries = None) by by apply obj_get_None.
    rewrite (js_in_ordinary _ _ Hkey). clear Hkey.
    unfold obj_has. destruct (obj_get key result) as [present|] eqn:Hkey.
    { destruct (IH result) as (r & -> & Hr). exists r. split; [done|].
      intros k. rewrite Hr. destruct (String.eqb_spec k key) as [->|Hne]; [by rewrite Hkey|done]. }
    assert (Hskip : get "default" ps = None →
      ∃ result', fillDefaults entries result = Ok result' ∧
        ∀ k, obj_get k result' =
          match obj_get k result with
          | Some value => Some value
          | None => (if String.eqb k key then Some ps else obj_get k entries) ≫= get "default"
          end).
    { intros Hnone. destruct (IH result) as (r & -> & Hr). exists r. split; [done|].
      intros k. rewrite Hr. destruct (String.eqb_spec k key) as [->|Hne]; [|done].
      rewrite Hkey, Hfresh. simpl. by rewrite Hnone. }
    destruct ps as [| | | |items|o]; try done; [by apply Hskip|].
    destruct (obj_get "default" o) as [d|] eqn:Hd; [|by apply Hskip].
    destruct (IH (obj_set key d result)) as (r & -> & Hr). exists r. split; [done|].
    intros k. rewrite Hr. destruct (String.eqb_spec k key) as [->|Hne].
    + rewrite obj_get_set_eq, Hkey. simpl. by rewrite Hd.
    + by rewrite obj_get_set_ne by done.
Qed.

(** Where the resolver does what is asked of it: for a descriptor whose
    property names are distinct and not inherited, and whose property
    schemas are objects, [applyDefaults] returns an object in which every
    property present in the input keeps the input's value, whatever that
    value is ([false], [0] and the empty string included), every property
    absent from the input whose schema declares a [default] has that
    default, and every other property is absent. *)
Theorem applyDefaults_fills_absent_only m schemaName schema props input :
  getSchema m schemaName = Some schema →
  properties schema = Some props →
  NoDup (obj_keys props) →
  forallb (λ p, isObjectValue p.2) props = true →
  ordinary (obj_keys props) = true →
  ∃ result, applyDefaults m input schemaName = Ok result ∧
    ∀ key, obj_get key result =
      match obj_get key input with
      | Some value => Some value
      | None => obj_get key props ≫= get "default"
      end.
Proof.
  intros Hschema Hprops Hnd Hobj Hord. unfold applyDefaults. rewrite Hschema, Hprops.
  by apply fillDefaults_spec.
Qed.

Lemma applyDefaults_fills_absent_only_witness :
  ∃ result,
    applyDefaults (loadSchemas (Ok [("my-tool.json", Document my_tool)]) constructor).1
      [("param1", JStr "")] "my-tool" = Ok result ∧
    obj_get "param1" result = Some (JStr "") ∧
    obj_get "param2" result = Some (JBool false).
Proof.
  destruct (applyDefaults_fills_absent_only
              (loadSchemas (Ok [("my-tool.json", Document my_tool)]) constructor).1
              "my-tool"
              (mkToolSchema "my-tool" "Description of what this tool does"
                 (Some [ ("param1",
                          JObj [ ("type", JStr "string");
                                 ("description", JStr "Description of parameter 1") ]);
                         ("param2",
                          JObj [ ("type", JStr "boolean");
                                 ("description", JStr "Description of parameter 2");
                                 ("default", JBool false) ]) ])
                 (Some ["param1"]) my_tool)
              _ [("param1", JStr "")]
              ltac:(vm_compute; reflexivity) ltac:(reflexivity)
              ltac:(compute_done) ltac:(reflexivity) ltac:(reflexivity))
    as (result & Hresult & Hget).
  exists result. split; [exact Hresult|].
  split; [exact (Hget "param1") | exact (Hget "param2")].
Defined.


(** Present values are kept even when falsy; the absent [param2] gets its
    default. *)
Example applyDefaults_keeps_falsy :
  let m := (loadSchemas (Ok [("my-tool.json", Document my_tool)]) constructor).1 in
  applyDefaults m [("param1", JStr ""); ("param2", JBool false)] "my-tool"
    = Ok [("param1", JStr ""); ("param2", JBool false)] ∧
  applyDefaults m [("param1", JInt 0)] "my-tool"
    = Ok [("param1", JInt 0); ("param2", JBool false)].
Proof. split; vm_compute; reflexivity. Qed.

(** ** The router *)

(** A request that passes the envelope check can be destructured. *)
Lemma valid_request_destructures request :
  validateToolRequest request = request_valid →
  ∃ name args, destructure request = Ok (name, args).
Proof.
  unfold validateToolRequest, destructure.
  destruct (CallToolRequestSchema_safeParse request) as [|issue issues] eqn:H; [|done].
  intros _. unfold CallToolRequestSchema_safeParse in H.
  destruct request as [| | | | |o]; try done. simpl.
  apply app_eq_nil in H as [_ H].
  destruct (obj_get "params" o) as [[| | | | |params]|]; try done.
  apply app_eq_nil in H as [_ [H _]%app_eq_nil].
  destruct (obj_get "name" params) as [[| | |name| |]|]; try done. eauto.
Qed.

(** The only handler invocation a call can make is the one after a
    successful validation and default filling. *)
Lemma callTool_invoked import m request name validatedArgs :
  (name, validatedArgs) ∈ invoked (callTool import m request) →
  ∃ args data,
    validateInput m name args = Ok (valid_true data) ∧
    applyDefaults m data name = Ok validatedArgs.
Proof.
  unfold callTool. destruct (validateToolRequest request); simpl; [|by intros ?%elem_of_nil].
  destruct (destructure request) as [[n args]|e]; simpl; [|by intros ?%elem_of_nil].
  destruct (validateInput m n args) as [[data|error]|e] eqn:Hv; simpl;
    try by intros ?%elem_of_nil.
  destruct (applyDefaults m data n) as [filled|e] eqn:Hd; simpl; [|by intros ?%elem_of_nil].
  destruct (getToolHandler import n) as [[toolHandler|]|e]; simpl;
    try by intros ?%elem_of_nil.
  intros [= -> ->]%list_elem_of_singleton. eauto.
Qed.

(** C5: for every call request with a valid envelope whose arguments pass
    validation and default filling, if the handler resolved for the tool
    throws or rejects with an error, the router invokes that handler once
    and resolves to the response whose single text block is
    "Error: <message>"; and on every request, whatever the manager and the
    handlers do, the router's promise resolves to a response: no exception
    escapes to its caller. *)
Theorem router_contains_handler_errors import m request :
  (∃ response, settled (callTool import m request) = Ok response) ∧
  (∀ name args data validatedArgs toolHandler e,
     validateToolRequest request = request_valid →
     destructure request = Ok (name, args) →
     validateInput m name args = Ok (valid_true data) →
     applyDefaults m data name = Ok validatedArgs →
     getToolHandler import name = Ok (Some toolHandler) →
     toolHandler validatedArgs = Throw e →
     callTool import m request =
       mkOutcome [(name, validatedArgs)]
         (Ok (mkResponse [mkContent "text" ("Error: " +:+ message e)]))).
Proof.
  split.
  - unfold callTool. destruct (validateToolRequest request) eqn:Hreq; simpl; [|by eauto].
    destruct (valid_request_destructures request Hreq) as (name & args & ->).
    destruct (validateInput m name args) as [[data|error]|e]; simpl; try by eauto.
    destruct (applyDefaults m data name) as [validatedArgs|e]; simpl; [|by eauto].
    destruct (getToolHandler import name) as [[toolHandler|]|e]; simpl; try by eauto.
    destruct (toolHandler validatedArgs); simpl; by eauto.
  - intros name args data validatedArgs toolHandler e Hreq Hd Hv Ha Hh He.
    unfold callTool. by rewrite Hreq, Hd, Hv, Ha, Hh, He.
Qed.

Lemma router_contains_handler_errors_witness :
  callTool failing
    (loadSchemas (Ok [("aio-login.json", Document aio_login)]) constructor).1
    (call "aio-login" [("context", JStr "cli")])
  = mkOutcome [("aio-login", [("context", JStr "cli"); ("force", JBool false)])]
      (Ok (mkResponse [mkContent "text" "Error: spawn aio ENOENT"])).
Proof.
  exact (proj2 (router_contains_handler_errors failing
    (loadSchemas (Ok [("aio-login.json", Document aio_login)]) constructor).1
    (call "aio-login" [("context", JStr "cli")]))
    "aio-login" (Some (JObj [("context", JStr "cli")]))
    [("context", JStr "cli")] [("context", JStr "cli"); ("force", JBool false)]
    (λ _, Throw (mkError "spawn aio ENOENT")) (mkError "spawn aio ENOENT")
    ltac:(reflexivity) ltac:(reflexivity) ltac:(vm_compute; reflexivity)
    ltac:(vm_compute; reflexivity) ltac:(reflexivity) ltac:(reflexivity)).
Defined.

(** C6: for every call request with a valid envelope that names a tool
    with no validator in the cache, [validateInput] returns the failure
    "Schema not found: <name>", and the router resolves to the response
    whose text is "Input validation failed: Schema not found: <name>"
    (behind the cross mark) without invoking any handler. *)
Theorem unregistered_tool_fails_validation import m request name args :
  validateToolRequest request = request_valid →
  destructure request = Ok (name, args) →
  zodSchemas m !! name = None →
  validateInput m name args = Ok (valid_false ("Schema not found: " +:+ name)) ∧
  callTool import m request =
    mkOutcome []
      (Ok (mkResponse
             [mkContent "text"
                ("❌ Input validation failed: " +:+ ("Schema not found: " +:+ name))])).
Proof.
  intros Hreq Hd Hnone.
  assert (Hv : validateInput m name args = Ok (valid_false ("Schema not found: " +:+ name)))
    by (unfold validateInput; by rewrite Hnone).
  split; [done|]. unfold callTool. by rewrite Hreq, Hd, Hv.
Qed.

Lemma unregistered_tool_fails_validation_witness :
  validateInput
    (loadSchemas (Ok [("aio-login.json", Document aio_login)]) constructor).1
    "aio-where" (Some (JObj []))
  = Ok (valid_false "Schema not found: aio-where") ∧
  callTool succeeding
    (loadSchemas (Ok [("aio-login.json", Document aio_login)]) constructor).1
    (call "aio-where" [])
  = mkOutcome []
      (Ok (mkResponse
             [mkContent "text"
                "❌ Input validation failed: Schema not found: aio-where"])).
Proof.
  apply (unregistered_tool_fails_validation succeeding
    (loadSchemas (Ok [("aio-login.json", Document aio_login)]) constructor).1
    (call "aio-where" []) "aio-where" (Some (JObj [])));
    [reflexivity | reflexivity | vm_compute; reflexivity].
Defined.

Lemma createZodSchema_other toolSchema m m' n :
  createZodSchema toolSchema m = Ok m' → n ≠ name toolSchema →
  zodSchemas m' !! n = zodSchemas m !! n.
Proof.
  unfold createZodSchema. destruct (properties toolSchema) as [props|].
  - destruct (compileProperties props _ []) as [shape|e]; simpl; [|done].
    intros [= <-] Hne. simpl. by rewrite lookup_insert_ne.
  - by intros [= <-].
Qed.

(** Loading leaves alone the validators of the names it does not meet. *)
Lemma loadFiles_Ok_other files m m' n :
  loadFiles files m = (m', Ok ()) → n ∉ name <$> descriptors files →
  zodSchemas m' !! n = zodSchemas m !! n.
Proof.
  revert m. induction files as [|[file content] files IH]; intros m; simpl.
  - by intros [= <-].
  - load_step files.
    destruct content as [e|e|schema]; try done.
    destruct (ToolInputSchema_safeParse schema) as [toolSchema|];
      [|intros Hload Hn; by rewrite (IH _ Hload Hn)].
    destruct (createZodSchema toolSchema _) as [m2|e] eqn:Hc; [|done].
    intros Hload [Hne Hn]%not_elem_of_cons.
    rewrite (IH _ Hload Hn). by rewrite (createZodSchema_other _ _ _ _ Hc Hne).
Qed.

(** After a completed load of descriptors with distinct names, the
    validator cached under a descriptor's name has that descriptor's
    properties as its shape keys. *)
Lemma loadFiles_Ok_shape files m m' toolSchema props :
  loadFiles files m = (m', Ok ()) →
  NoDup (name <$> descriptors files) →
  toolSchema ∈ descriptors files →
  properties toolSchema = Some props →
  ∃ shape, zodSchemas m' !! name toolSchema = Some shape ∧
    ∀ k, k ∈ obj_keys shape ↔ k ∈ obj_keys props.
Proof.
  revert m. induction files as [|[file content] files IH]; intros m; simpl.
  - by intros _ _ ?%elem_of_nil.
  - load_step files.
    destruct content as [e|e|schema]; try done.
    destruct (ToolInputSchema_safeParse schema) as [t|]; [|apply IH].
    destruct (createZodSchema t _) as [m2|e] eqn:Hc; [|done].
    intros Hload [Hnin Hnd]%NoDup_cons [->|Hin]%elem_of_cons Hprops.
    + destruct (createZodSchema_shape _ _ _ _ Hprops Hc) as (shape & Hshape & Hkeys).
      exists shape. split; [|done]. by rewrite (loadFiles_Ok_other _ _ _ _ Hload Hnin).
    + by apply (IH m2).
Qed.

(** C10: for every directory loaded to completion whose descriptors have
    distinct names, and every loaded descriptor that declares
    [properties]: the data [validateInput] returns for an input that
    passes validation holds declared properties only; adding or changing
    an undeclared key of the input changes nothing in what
    [validateInput] returns, so such a key is dropped, not rejected; and
    the arguments with which the router invokes the tool's handler hold
    declared properties only. *)
Theorem undeclared_arguments_are_dropped files m' toolSchema props :
  loadSchemas (Ok files) constructor = (m', Ok ()) →
  NoDup (name <$> descriptors (jsonFiles files)) →
  toolSchema ∈ descriptors (jsonFiles files) →
  properties toolSchema = Some props →
  (∀ input data,
     validateInput m' (name toolSchema) input = Ok (valid_true data) →
     ∃ o, input = Some (JObj o) ∧
       (∀ k, k ∈ obj_keys data → k ∈ obj_keys props)) ∧
  (∀ o extra value,
     extra ∉ obj_keys props →
     validateInput m' (name toolSchema) (Some (JObj (obj_set extra value o))) =
     validateInput m' (name toolSchema) (Some (JObj o))) ∧
  (∀ import request validatedArgs,
     (name toolSchema, validatedArgs) ∈ invoked (callTool import m' request) →
     ∀ k, k ∈ obj_keys validatedArgs → k ∈ obj_keys props).
Proof.
  intros Hload Hnd Hin Hprops.
  apply loadSchemas_Ok in Hload as (files' & m0 & [= <-] & Hload & ->).
  destruct (loadFiles_Ok_shape _ _ _ _ _ Hload Hnd Hin Hprops) as (shape & Hshape & Hkeys).
  assert (Hschema : schemas m0 !! name toolSchema = Some toolSchema).
  { rewrite (loadFiles_Ok_schemas _ _ _ Hload).
    by apply (index_distinct _ ∅ Hnd (λ _ _, lookup_empty _)). }
  set (m' := console_error _ m0).
  assert (Hdata : ∀ input data,
            validateInput m' (name toolSchema) input = Ok (valid_true data) →
            ∃ o, input = Some (JObj o) ∧
              (∀ k, k ∈ obj_keys data → k ∈ obj_keys props)).
  { intros input data Hv.
    destruct (validateInput_valid m' _ _ _ _ Hshape Hv) as (o & -> & ->).
    exists o. split; [done|]. intros k Hk%strip_keys. by apply Hkeys. }
  split; [exact Hdata|]. split.
  - intros o extra value Hextra. unfold validateInput, safeParse. simpl. rewrite Hshape.
    rewrite (parse_shape_reads_shape shape (obj_set extra value o) o); [done|].
    intros k Hk. apply obj_get_set_ne. intros ->. by apply Hextra, Hkeys.
  - intros import request validatedArgs Hinv k Hk.
    apply callTool_invoked in Hinv as (args & data & Hv & Ha).
    destruct (Hdata _ _ Hv) as (o & _ & Hsub).
    unfold applyDefaults, getSchema in Ha. simpl in Ha. rewrite Hschema, Hprops in Ha.
    destruct (fillDefaults_keys _ _ _ Ha k Hk) as [?|?]; [by apply Hsub | done].
Qed.

Lemma undeclared_arguments_are_dropped_witness :
  validateInput
    (loadSchemas (Ok [ ("my-tool.json", Document my_tool);
                       ("aio-login.json", Document aio_login) ]) constructor).1
    "aio-login"
    (Some (JObj (obj_set "verbose" (JBool true) [("context", JStr "cli")])))
  = validateInput
      (loadSchemas (Ok [ ("my-tool.json", Document my_tool);
                         ("aio-login.json", Document aio_login) ]) constructor).1
      "aio-login" (Some (JObj [("context", JStr "cli")])).
Proof.
  refine (proj1 (proj2 (undeclared_arguments_are_dropped
    [ ("my-tool.json", Document my_tool); ("aio-login.json", Document aio_login) ]
    _
    (mkToolSchema "aio-login" "Authenticate with Adobe I/O services"
       (Some [ ("force", JObj [ ("type", JStr "boolean"); ("default", JBool false) ]);
               ("context", JObj [ ("type", JStr "string") ]) ])
       None aio_login)
    _ ltac:(vm_compute; reflexivity) _ _ ltac:(reflexivity)))
    [("context", JStr "cli")] "verbose" (JBool true) _).
  - compute_done.
  - vm_compute. apply list_elem_of_further, list_elem_of_here.
  - compute_done.
Defined.

(** The undeclared key does not reach the handler, and the default does. *)
Example callTool_strips_extra_key :
  invoked (callTool succeeding
    (loadSchemas (Ok [ ("my-tool.json", Document my_tool);
                       ("aio-login.json", Document aio_login) ]) constructor).1
    (call "aio-login" [("context", JStr "cli"); ("verbose", JBool true)]))
  = [("aio-login", [("context", JStr "cli"); ("force", JBool false)])].
Proof. vm_compute. reflexivity. Qed.

(** The undeclared key is gone from the validated data. *)
Example validateInput_strips_extra_key :
  validateInput (loadFile "my-tool.json" (Document my_tool) constructor).1 "my-tool"
    (Some (JObj [("param1", JStr "x"); ("verbose", JBool true)]))
  = Ok (valid_true [("param1", JStr "x")]).
Proof. vm_compute. reflexivity. Qed.

(** ** The process executor *)

Module CommandExecutorFacts.
Import CommandExecutor.

(** C9: for every command and argument vector, [executeCommand] resolves
    to an execution result and never throws; [success] is true exactly
    when the child exited with code 0, whatever it wrote to standard
    error; [output] and [error] are what the child wrote to standard
    output and to standard error; and when the process cannot be spawned
    the result is [success=false], [output=""] and [error] the spawn
    failure's message. *)
Theorem executeCommand_reports_outcome (spawn : string → list string → ChildProcess)
    (command : string) (argv : list string) :
  ∃ result, executeCommand spawn command argv = Ok result ∧
    (success result = true ↔ ∃ writes, spawn command argv = Ran writes 0) ∧
    (∀ writes exitCode, spawn command argv = Ran writes exitCode →
       output result = written stdout writes ∧ error result = written stderr writes) ∧
    (∀ e, spawn command argv = SpawnFailure e →
       result = mkResult false "" (message e)).
Proof.
  unfold executeCommand. destruct (spawn command argv) as [e|writes exitCode].
  - eexists. split; [done|]. simpl. split; [|split].
    + split; [done | by intros [? ?]].
    + done.
    + by intros ? [= ->].
  - eexists. split; [done|]. simpl. split; [|split].
    + rewrite Z.eqb_eq. split; [intros ->; by eexists | by intros [? [= _ ->]]].
    + by intros ? ? [= -> ->].
    + done.
Qed.

End CommandExecutorFacts.

(** * Further properties *)

(** ** Loading, continued *)

(** Loading a listing is loading its first part and then, unless that
    threw, the rest on the manager it left. *)
Lemma loadFiles_app files1 files2 m :
  loadFiles (files1 ++ files2)%list m =
    match loadFiles files1 m with
    | (m', Ok _) => loadFiles files2 m'
    | (m', Throw e) => (m', Throw e)
    end.
Proof.
  revert m. induction files1 as [|[file content] files1 IH]; intros m; simpl; [done|].
  destruct (loadFile file content m) as [m1 [[]|e]]; [apply IH | done].
Qed.

(** X1: files whose name does not end in ".json" play no part in a load,
    whatever they hold: removing one from the directory changes neither
    the manager [loadSchemas] leaves nor the way it ends. *)
Theorem loadSchemas_ignores_other_files files1 file content files2 m :
  endsWith file ".json" = false →
  loadSchemas (Ok (files1 ++ (file, content) :: files2)%list) m =
  loadSchemas (Ok (files1 ++ files2)%list) m.
Proof.
  intros Hext. unfold loadSchemas, jsonFiles.
  rewrite !filter_app, filter_cons. simpl.
  rewrite decide_False; [done|]. by rewrite Hext.
Qed.

Lemma loadSchemas_ignores_other_files_witness :
  loadSchemas (Ok ([("my-tool.json", Document my_tool)]
                   ++ ("README.md", NotJSON SyntaxError)
                   :: [("status.json", Document status_tool)])%list) constructor =
  loadSchemas (Ok ([("my-tool.json", Document my_tool)]
                   ++ [("status.json", Document status_tool)])%list) constructor.
Proof.
  apply (loadSchemas_ignores_other_files [("my-tool.json", Document my_tool)]
           "README.md" (NotJSON SyntaxError) [("status.json", Document status_tool)]).
  reflexivity.
Defined.

(** X2: when a [.json] file cannot be read or is not JSON, the load
    throws that file's error and both maps are left as the files listed
    before it made them: what they indexed stays indexed, and the files
    listed after it are never looked at. *)
Theorem failed_load_keeps_earlier_files files1 file content e files2 m m1 :
  endsWith file ".json" = true →
  (content = Unreadable e ∨ content = NotJSON e) →
  loadSchemas (Ok files1) m = (m1, Ok ()) →
  let loaded := loadSchemas (Ok (files1 ++ (file, content) :: files2)%list) m in
  loaded.2 = Throw e ∧
  schemas loaded.1 = schemas m1 ∧
  zodSchemas loaded.1 = zodSchemas m1.
Proof.
  intros Hext Hbad Hload. apply loadSchemas_Ok in Hload as (? & m0 & [= <-] & Hload & ->).
  unfold loadSchemas, jsonFiles. rewrite filter_app, filter_cons. simpl.
  rewrite decide_True by done. fold (jsonFiles files1).
  rewrite loadFiles_app, Hload. simpl. by destruct Hbad as [-> | ->].
Qed.

Lemma failed_load_keeps_earlier_files_witness :
  (loadSchemas (Ok ([("my-tool.json", Document my_tool)]
                    ++ ("broken.json", NotJSON SyntaxError)
                    :: [("status.json", Document status_tool)])%list) constructor).2
  = Throw SyntaxError.
Proof.
  refine (proj1 (failed_load_keeps_earlier_files [("my-tool.json", Document my_tool)]
           "broken.json" (NotJSON SyntaxError) SyntaxError
           [("status.json", Document status_tool)] constructor _ _ _ _)).
  - reflexivity.
  - by right.
  - vm_compute. reflexivity.
Defined.

(** What a load adds is found by loading into empty maps; what was in the
    maps before stays underneath. *)
Lemma loadFiles_layers files s z c c0 :
  let fresh := loadFiles files (mkManager ∅ ∅ c0) in
  let loaded := loadFiles files (mkManager s z c) in
  schemas loaded.1 = schemas fresh.1 ∪ s ∧
  zodSchemas loaded.1 = zodSchemas fresh.1 ∪ z ∧
  loaded.2 = fresh.2.
Proof.
  revert s z c c0. induction files as [|[file content] files IH]; intros s z c c0; simpl.
  - by rewrite !(left_id_L ∅ (∪)).
  - unfold loadFile. destruct content as [e|e|schema]; simpl;
      try by rewrite !(left_id_L ∅ (∪)).
    destruct (ToolInputSchema_safeParse schema) as [t|]; [|apply IH].
    unfold createZodSchema; simpl.
    assert (Hins : ∀ (A : Type) (n : string) (x : A) (a b : gmap string A),
               a ∪ <[n:=x]> b = (a ∪ <[n:=x]> ∅) ∪ b).
    { intros A n x a b. rewrite (insert_union_singleton_l b), insert_empty.
      by rewrite (assoc_L (∪)). }
    destruct (properties t) as [props|].
    + destruct (compileProperties props _ []) as [shape|e]; simpl.
      * destruct (IH (<[name t:=t]> s) (<[name t:=shape]> z) c c0) as (-> & -> & ->).
        destruct (IH (<[name t:=t]> ∅) (<[name t:=shape]> ∅) c0 c0) as (-> & -> & ->).
        by rewrite <- !Hins.
      * rewrite !(left_id_L ∅ (∪)). by rewrite insert_union_singleton_l, insert_empty.
    + destruct (IH (<[name t:=t]> s) z c c0) as (-> & -> & ->).
      destruct (IH (<[name t:=t]> ∅) ∅ c0 c0) as (-> & -> & ->).
      rewrite <- !Hins. by rewrite (right_id_L ∅ (∪)).
Qed.

Lemma loadSchemas_layers schemasDir m :
  schemas (loadSchemas schemasDir m).1
    = schemas (loadSchemas schemasDir constructor).1 ∪ schemas m ∧
  zodSchemas (loadSchemas schemasDir m).1
    = zodSchemas (loadSchemas schemasDir constructor).1 ∪ zodSchemas m ∧
  (loadSchemas schemasDir m).2 = (loadSchemas schemasDir constructor).2.
Proof.
  destruct (loadSchemas_maps schemasDir m) as [-> ->].
  destruct (loadSchemas_maps schemasDir constructor) as [-> ->].
  unfold loadSchemas, constructor. destruct schemasDir as [files|e]; simpl.
  - destruct m as [s z c].
    destruct (loadFiles_layers (jsonFiles files) s z c []) as (Hs & Hz & Hr).
    simpl in *. rewrite Hs, Hz. split; [done|]. split; [done|].
    destruct (loadFiles (jsonFiles files) (mkManager s z c)) as [m1 [[]|e1]];
      destruct (loadFiles (jsonFiles files) (mkManager ∅ ∅ [])) as [m2 [[]|e2]];
      simpl in *; congruence.
  - by rewrite !(left_id_L ∅ (∪)).
Qed.

(** X3: [loadSchemas] on a manager that already holds entries (it does
    not clear anything) ends as it would on a fresh manager, and leaves
    under each name what the fresh load would have put there, or else
    what the manager held before: it overwrites the names it meets and
    never removes one. *)
Theorem loadSchemas_keeps_other_entries schemasDir m schemaName :
  (loadSchemas schemasDir m).2 = (loadSchemas schemasDir constructor).2 ∧
  getSchema (loadSchemas schemasDir m).1 schemaName =
    match getSchema (loadSchemas schemasDir constructor).1 schemaName with
    | Some schema => Some schema
    | None => getSchema m schemaName
    end ∧
  zodSchemas (loadSchemas schemasDir m).1 !! schemaName =
    match zodSchemas (loadSchemas schemasDir constructor).1 !! schemaName with
    | Some zodSchema => Some zodSchema
    | None => zodSchemas m !! schemaName
    end.
Proof.
  destruct (loadSchemas_layers schemasDir m) as (Hs & Hz & Hr). unfold getSchema.
  rewrite Hs, Hz, !lookup_union. split; [done|].
  split; [by destruct (schemas _ !! schemaName), (schemas m !! schemaName)|].
  by destruct (zodSchemas _ !! schemaName), (zodSchemas m !! schemaName).
Qed.

(** X4: loading the same directory a second time without clearing (as
    [start] followed by a listing on an index that is still empty can
    do) changes nothing: both maps are what the first load left, and the
    second load ends the way the first did. *)
Theorem loadSchemas_twice schemasDir m :
  let once := loadSchemas schemasDir m in
  let twice := loadSchemas schemasDir once.1 in
  schemas twice.1 = schemas once.1 ∧
  zodSchemas twice.1 = zodSchemas once.1 ∧
  twice.2 = once.2.
Proof.
  intros once twice. unfold twice.
  destruct (loadSchemas_layers schemasDir once.1) as (-> & -> & ->).
  unfold once. destruct (loadSchemas_layers schemasDir m) as (-> & -> & ->).
  by rewrite !(assoc_L (∪)), !(idemp_L (∪)).
Qed.

(** X5: the index and the cache are written separately.  Loading a
    descriptor that declares no [properties] puts it in the index and
    leaves the cache alone; so when its name is already taken, the index
    moves to the new descriptor while inputs are still judged by the
    validator compiled for the old one, and no default is filled in under
    that name any more. *)
Theorem redefinition_without_properties_keeps_validator file schema toolSchema m :
  ToolInputSchema_safeParse schema = Some toolSchema →
  properties toolSchema = None →
  ∃ m', loadFile file (Document schema) m = (m', Ok ()) ∧
    getSchema m' (name toolSchema) = Some toolSchema ∧
    (∀ schemaName input,
       validateInput m' schemaName input = validateInput m schemaName input) ∧
    (∀ input, applyDefaults m' input (name toolSchema) = Ok input).
Proof.
  intros Hparse Hprops. unfold loadFile, createZodSchema. rewrite Hparse, Hprops.
  eexists. split; [done|]. unfold getSchema, applyDefaults, getSchema. simpl.
  rewrite lookup_insert_eq, Hprops. by repeat split.
Qed.

Lemma redefinition_without_properties_keeps_validator_witness :
  ∃ m', loadFile "status.json" (Document status_tool)
          (loadFile "my-tool.json" (Document my_tool) constructor).1 = (m', Ok ()) ∧
    getSchema m' "status" =
      Some (mkToolSchema "status" "Show the current status" None None status_tool).
Proof.
  destruct (redefinition_without_properties_keeps_validator "status.json" status_tool
              (mkToolSchema "status" "Show the current status" None None status_tool)
              (loadFile "my-tool.json" (Document my_tool) constructor).1
              ltac:(reflexivity) ltac:(reflexivity)) as (m' & Hload & Hget & _).
  exists m'. split; [exact Hload | exact Hget].
Defined.

Lemma NoDup_names_inj (l : list ToolSchema) t1 t2 :
  NoDup (name <$> l) → t1 ∈ l → t2 ∈ l → name t1 = name t2 → t1 = t2.
Proof.
  induction l as [|t l IH]; simpl; [by intros _ ?%elem_of_nil|].
  intros [Hnin Hnd]%NoDup_cons [->|H1]%elem_of_cons [->|H2]%elem_of_cons Heq;
    try done.
  - exfalso. apply Hnin. rewrite Heq. by apply list_elem_of_fmap_2.
  - exfalso. apply Hnin. rewrite <- Heq. by apply list_elem_of_fmap_2.
  - by apply IH.
Qed.

(** After a completed load of descriptors with distinct names, a
    descriptor is in the index under its name, and has a validator
    exactly when it declares [properties]. *)
Lemma loadSchemas_Ok_entry files m' t :
  loadSchemas (Ok files) constructor = (m', Ok ()) →
  NoDup (name <$> descriptors (jsonFiles files)) →
  t ∈ descriptors (jsonFiles files) →
  schemas m' !! name t = Some t ∧
  (is_Some (zodSchemas m' !! name t) ↔ declaresProperties t = true).
Proof.
  intros Hload Hnd Hin.
  apply loadSchemas_Ok in Hload as (files' & m0 & [= <-] & Hload & ->). simpl.
  split.
  - rewrite (loadFiles_Ok_schemas _ _ _ Hload).
    by apply (index_distinct _ ∅ Hnd (λ _ _, lookup_empty _)).
  - destruct (loadFiles_Ok_dom _ _ _ Hload) as [_ Hz]. simpl in Hz.
    rewrite <- elem_of_dom, Hz, dom_empty_L, (left_id_L ∅ (∪)). unfold names.
    rewrite elem_of_list_to_set, list_elem_of_fmap. split.
    + intros (t' & Hname & [Hdecl Hin']%list_elem_of_filter).
      by rewrite (NoDup_names_inj _ t t' Hnd Hin Hin' Hname).
    + intros Hdecl. exists t. split; [done|]. by apply list_elem_of_filter.
Qed.

(** X6: a descriptor that declares no [properties] (a tool without
    arguments) is advertised and cannot be called.  After a completed
    load of descriptors with distinct names, its document is among the
    tools [listToolSchemas] returns, and every well-formed call that names
    it is answered with "Schema not found" without its handler being
    invoked. *)
Theorem tool_without_properties_is_listed_but_uncallable files m' toolSchema :
  loadSchemas (Ok files) constructor = (m', Ok ()) →
  NoDup (name <$> descriptors (jsonFiles files)) →
  toolSchema ∈ descriptors (jsonFiles files) →
  properties toolSchema = None →
  (∀ schemasDir tools,
     (listToolSchemas schemasDir m').2 = Ok tools → document toolSchema ∈ tools) ∧
  (∀ import request args,
     validateToolRequest request = request_valid →
     destructure request = Ok (name toolSchema, args) →
     callTool import m' request =
       mkOutcome []
         (Ok (textResponse ("❌ Input validation failed: "
                            +:+ ("Schema not found: " +:+ name toolSchema))))).
Proof.
  intros Hload Hnd Hin Hprops.
  destruct (loadSchemas_Ok_entry _ _ _ Hload Hnd Hin) as [Hs Hz].
  assert (Hnone : zodSchemas m' !! name toolSchema = None).
  { destruct (zodSchemas m' !! name toolSchema) eqn:E; [|done].
    assert (declaresProperties toolSchema = true) as Hd by (apply Hz; eauto).
    unfold declaresProperties in Hd. by rewrite Hprops in Hd. }
  split.
  - intros schemasDir tools. unfold listToolSchemas.
    assert (size (schemas m') ≠ 0) as Hsize.
    { intros H0%map_size_empty_inv. rewrite H0 in Hs. by rewrite lookup_empty in Hs. }
    apply Nat.eqb_neq in Hsize. rewrite Hsize. simpl. intros [= <-].
    unfold getAllSchemas. apply list_elem_of_fmap_2.
    apply list_elem_of_fmap. exists (name toolSchema, toolSchema).
    split; [done|]. by apply elem_of_map_to_list.
  - intros import request args Hreq Hd. unfold callTool, validateInput.
    by rewrite Hreq, Hd, Hnone.
Qed.

Lemma tool_without_properties_is_listed_but_uncallable_witness :
  callTool succeeding
    (loadSchemas (Ok [ ("aio-login.json", Document aio_login);
                       ("status.json", Document status_tool) ]) constructor).1
    (call "status" [])
  = mkOutcome []
      (Ok (textResponse "❌ Input validation failed: Schema not found: status")).
Proof.
  refine (proj2 (tool_without_properties_is_listed_but_uncallable
    [ ("aio-login.json", Document aio_login); ("status.json", Document status_tool) ]
    _ (mkToolSchema "status" "Show the current status" None None status_tool)
    ltac:(vm_compute; reflexivity) _ _ ltac:(reflexivity))
    succeeding (call "status" []) (Some (JObj [])) ltac:(reflexivity) ltac:(reflexivity)).
  - compute_done.
  - vm_compute. apply list_elem_of_further, list_elem_of_here.
Defined.

(** ** Listing *)

Lemma getAllSchemas_spec m :
  (∀ d, d ∈ getAllSchemas m ↔ ∃ n t, schemas m !! n = Some t ∧ document t = d) ∧
  length (getAllSchemas m) = size (schemas m).
Proof.
  unfold getAllSchemas. split.
  - intros d. rewrite list_elem_of_fmap. split.
    + intros (t & -> & ([n t'] & -> & Hin%elem_of_map_to_list)%list_elem_of_fmap). eauto.
    + intros (n & t & Hn & <-). exists t. split; [done|].
      apply list_elem_of_fmap. exists (n, t). split; [done|]. by apply elem_of_map_to_list.
  - by rewrite !length_fmap, length_map_to_list.
Qed.

(** X7: listing is lazy and unguarded.  On a manager whose index is not
    empty, [listToolSchemas] leaves the manager as it is and never looks
    at the directory; on an empty index it is [loadSchemas], and an error
    thrown by the load comes out of the list handler uncaught.  Whenever
    it resolves, the tools are exactly the documents of the index, one
    for each name. *)
Theorem listToolSchemas_is_lazy schemasDir m :
  (schemas m ≠ ∅ → listTools schemasDir m = (m, Ok (getAllSchemas m))) ∧
  (schemas m = ∅ →
     (listTools schemasDir m).1 = (loadSchemas schemasDir m).1 ∧
     ∀ e, (loadSchemas schemasDir m).2 = Throw e →
          (listTools schemasDir m).2 = Throw e) ∧
  (∀ tools, (listTools schemasDir m).2 = Ok tools →
     length tools = size (schemas (listTools schemasDir m).1) ∧
     ∀ d, d ∈ tools ↔
          ∃ n t, schemas (listTools schemasDir m).1 !! n = Some t ∧ document t = d).
Proof.
  unfold listTools, listToolSchemas. split; [|split].
  - intros Hne. destruct (Nat.eqb_spec (size (schemas m)) 0) as [H0|]; [|done].
    by apply map_size_empty_inv in H0.
  - intros ->. rewrite map_size_empty. simpl.
    destruct (loadSchemas schemasDir m) as [m' [[]|e]]; simpl; [done|].
    split; [done|]. by intros ? [= ->].
  - intros tools. destruct (Nat.eqb (size (schemas m)) 0).
    + destruct (loadSchemas schemasDir m) as [m' [[]|e]]; simpl; [|done].
      intros [= <-]. destruct (getAllSchemas_spec m') as [Hin Hlen]. by split.
    + simpl. intros [= <-]. destruct (getAllSchemas_spec m) as [Hin Hlen]. by split.
Qed.

(** ** Validation, continued *)

(** X8: a call whose envelope has no [arguments], which the envelope
    check lets through, never passes validation: for every tool that has a
    validator, whatever its properties, the router answers
    "Validation failed: Required" and invokes no handler. *)
Theorem call_without_arguments_is_rejected import m request name shape :
  validateToolRequest request = request_valid →
  destructure request = Ok (name, None) →
  zodSchemas m !! name = Some shape →
  callTool import m request =
    mkOutcome []
      (Ok (textResponse "❌ Input validation failed: Validation failed: Required")).
Proof.
  intros Hreq Hd Hshape. unfold callTool, validateInput. by rewrite Hreq, Hd, Hshape.
Qed.

Lemma call_without_arguments_is_rejected_witness :
  callTool succeeding
    (loadSchemas (Ok [("aio-login.json", Document aio_login)]) constructor).1
    (JObj [ ("method", JStr "tools/call");
            ("params", JObj [ ("name", JStr "aio-login") ]) ])
  = mkOutcome []
      (Ok (textResponse "❌ Input validation failed: Validation failed: Required")).
Proof.
  apply (call_without_arguments_is_rejected succeeding _ _ "aio-login"
           [("force", ZodOptional ZodBoolean); ("context", ZodOptional ZodString)]);
    [reflexivity | reflexivity | vm_compute; reflexivity].
Defined.

(** X9: validation is idempotent: the data [validateInput] returns for an
    accepted input is itself accepted, and comes back unchanged. *)
Theorem validated_data_validates m schemaName input data :
  validateInput m schemaName input = Ok (valid_true data) →
  validateInput m schemaName (Some (JObj data)) = Ok (valid_true data).
Proof.
  intros Hv. unfold validateInput in *.
  destruct (zodSchemas m !! schemaName) as [shape|] eqn:Hshape; [|done].
  assert (Hv' : validateInput m schemaName input = Ok (valid_true data))
    by (unfold validateInput; by rewrite Hshape).
  destruct (validateInput_valid _ _ _ _ _ Hshape Hv') as (o & -> & ->).
  unfold safeParse in *.
  rewrite (parse_shape_reads_shape shape (strip shape o) o).
  - destruct (parse_shape shape o) as [[issues out]|e] eqn:Hp; simpl in *; [|done].
    destruct issues; [|done]. simpl. by rewrite (parse_shape_strip _ _ _ Hp).
  - intros k Hk%obj_has_true. by rewrite strip_get, Hk.
Qed.

Lemma validated_data_validates_witness :
  validateInput (loadSchemas (Ok [("my-tool.json", Document my_tool)]) constructor).1
    "my-tool" (Some (JObj [("param1", JStr "x")]))
  = Ok (valid_true [("param1", JStr "x")]).
Proof.
  apply (validated_data_validates _ "my-tool"
           (Some (JObj [("verbose", JBool true); ("param1", JStr "x")]))).
  vm_compute. reflexivity.
Defined.

(** A shape all of whose validators are optional lets the empty object
    through. *)
Lemma parse_shape_optional shape :
  Forall (λ e, ∃ inner, e.2 = ZodOptional inner) shape →
  parse_shape shape [] = Ok ([], []).
Proof.
  induction shape as [|[key t] shape IH]; intros Hopt; simpl; [done|].
  apply Forall_cons in Hopt as [[inner Heq] Hopt]. simpl in Heq. subst t.
  simpl. by rewrite (IH Hopt).
Qed.

Lemma compileProperties_optional entries required acc shape :
  compileProperties entries required acc = Ok shape →
  (∀ k, k ∈ obj_keys entries → k ∉ required) →
  Forall (λ e, ∃ inner, e.2 = ZodOptional inner) acc →
  Forall (λ e, ∃ inner, e.2 = ZodOptional inner) shape.
Proof.
  revert acc. induction entries as [|[key ps] entries IH]; intros acc; simpl.
  - by intros [= <-].
  - unfold propertyValidator.
    destruct (zodTypeOf ps) as [t|e]; simpl; [|done].
    intros Hc Hreq Hacc. apply (IH _ Hc).
    + intros k Hk. apply Hreq. by right.
    + destruct (array_includes required key) eqn:Hinc.
      { apply array_includes_spec in Hinc. exfalso. apply (Hreq key); [by left|done]. }
      apply obj_set_Forall; [|done]. simpl. eauto.
Qed.

(** X10: a property is only demanded when [required] lists it.  For a
    descriptor whose property names are not names a plain object
    inherits and none of whose declared properties is listed in
    [required] (in particular when [required] is absent), the validator
    [createZodSchema] caches accepts the empty object. *)
Theorem nothing_required_accepts_empty_object toolSchema props m m' :
  properties toolSchema = Some props →
  ordinary (obj_keys props) = true →
  (∀ k, k ∈ obj_keys props → k ∉ default [] (required toolSchema)) →
  createZodSchema toolSchema m = Ok m' →
  validateInput m' (name toolSchema) (Some (JObj [])) = Ok (valid_true []).
Proof.
  intros Hprops _ Hreq. unfold createZodSchema. rewrite Hprops.
  destruct (compileProperties props _ []) as [shape|e] eqn:Hc; simpl; [|done].
  intros [= <-]. unfold validateInput, safeParse. simpl. rewrite lookup_insert_eq.
  rewrite (parse_shape_optional shape); [done|].
  by apply (compileProperties_optional _ _ _ _ Hc Hreq).
Qed.

Lemma nothing_required_accepts_empty_object_witness :
  validateInput (loadFile "aio-login.json" (Document aio_login) constructor).1
    "aio-login" (Some (JObj []))
  = Ok (valid_true []).
Proof.
  apply (nothing_required_accepts_empty_object
           (mkToolSchema "aio-login" "Authenticate with Adobe I/O services"
              (Some [ ("force", JObj [ ("type", JStr "boolean"); ("default", JBool false) ]);
                      ("context", JObj [ ("type", JStr "string") ]) ])
              None aio_login)
           [ ("force", JObj [ ("type", JStr "boolean"); ("default", JBool false) ]);
             ("context", JObj [ ("type", JStr "string") ]) ]
           (mkManager (<["aio-login" :=
              mkToolSchema "aio-login" "Authenticate with Adobe I/O services"
                (Some [ ("force", JObj [ ("type", JStr "boolean"); ("default", JBool false) ]);
                        ("context", JObj [ ("type", JStr "string") ]) ])
                None aio_login]> ∅) ∅ [])).
  - reflexivity.
  - reflexivity.
  - intros k _. apply not_elem_of_nil.
  - reflexivity.
Defined.

(** X11: only the five type names "string", "boolean", "integer",
    "number" and "object" are checked.  A property schema that is not
    [null], has no truthy [enum] and whose [type] is anything else (a
    name such as "array", a value that is not a string, or nothing) is
    compiled to a validator that accepts every value, and, even when the
    property is listed in [required], its absence. *)
Theorem unknown_type_accepts_anything required key propSchema v :
  propSchema ≠ JNull →
  truthy (get "enum" propSchema) = false →
  (∀ t, get "type" propSchema = Some (JStr t) →
        t ∉ ["string"; "boolean"; "integer"; "number"; "object"]) →
  ∃ zodType, propertyValidator required key propSchema = Ok zodType ∧
             accepts zodType v = true.
Proof.
  intros Hnull Henum Htype. unfold propertyValidator, zodTypeOf.
  assert (Hbase : match get "type" propSchema with
                  | Some (JStr t) =>
                      if String.eqb t "string" then ZodString
                      else if String.eqb t "boolean" then ZodBoolean
                      else if String.eqb t "integer" then ZodInt
                      else if String.eqb t "number" then ZodNumber
                      else if String.eqb t "object" then ZodRecordAny
                      else ZodAny
                  | _ => ZodAny
                  end = ZodAny).
  { destruct (get "type" propSchema) as [[| | |t| |]|]; try done.
    specialize (Htype t eq_refl).
    destruct (String.eqb_spec t "string") as [->|_]; [exfalso; apply Htype; set_solver|].
    destruct (String.eqb_spec t "boolean") as [->|_]; [exfalso; apply Htype; set_solver|].
    destruct (String.eqb_spec t "integer") as [->|_]; [exfalso; apply Htype; set_solver|].
    destruct (String.eqb_spec t "number") as [->|_]; [exfalso; apply Htype; set_solver|].
    destruct (String.eqb_spec t "object") as [->|_]; [exfalso; apply Htype; set_solver|].
    done. }
  assert (Hany : ∀ zodType, zodType = ZodAny →
            ∃ t, Ok (if array_includes required key then zodType
                     else ZodOptional zodType) = Ok t ∧ accepts t v = true).
  { intros ? ->. destruct (array_includes required key); eexists; (split; [done|]);
      unfold accepts; simpl; by destruct v. }
  destruct propSchema as [| | | | |o]; try done; try (simpl; by apply Hany).
  rewrite Hbase. destruct (get "enum" (JObj o)) as [values|]; [rewrite Henum|];
    simpl; by apply Hany.
Qed.

Lemma unknown_type_accepts_anything_witness :
  ∃ zodType,
    propertyValidator ["events"] "events" (JObj [("type", JStr "array")]) = Ok zodType ∧
    accepts zodType None = true.
Proof.
  apply (unknown_type_accepts_anything ["events"] "events"
           (JObj [("type", JStr "array")]) None).
  - discriminate.
  - reflexivity.
  - intros t [= <-]. compute_done.
Defined.

(** ** Defaults, continued *)

Lemma js_in_false {V} key (o : list (string * V)) :
  js_in key o = false → obj_get key o = None ∧ inherited key = false.
Proof.
  unfold js_in, obj_has. intros [H ?]%orb_false_iff. split; [|done].
  by destruct (obj_get key o).
Qed.

(** What the loop of [applyDefaults] does to its result: the properties
    that are there stay as they are, and each property it adds is the
    declared default of a key that was absent and is not inherited. *)
Lemma fillDefaults_grows entries result result' :
  fillDefaults entries result = Ok result' →
  (∀ k v, obj_get k result = Some v → obj_get k result' = Some v) ∧
  (∀ k d, obj_get k result = None → obj_get k result' = Some d →
     inherited k = false ∧ ∃ ps, (k, ps) ∈ entries ∧ get "default" ps = Some d).
Proof.
  revert result. induction entries as [|[key ps] entries IH]; intros result; simpl.
  - intros [= <-]. split; [done | congruence].
  - assert (Hskip : fillDefaults entries result = Ok result' →
      (∀ k v, obj_get k result = Some v → obj_get k result' = Some v) ∧
      (∀ k d, obj_get k result = None → obj_get k result' = Some d →
         inherited k = false ∧
         ∃ ps0, (k, ps0) ∈ (key, ps) :: entries ∧ get "default" ps0 = Some d)).
    { intros [Hkept Hadded]%IH. split; [done|]. intros k d Hk Hd.
      destruct (Hadded k d Hk Hd) as (? & ps0 & ? & ?). split; [done|].
      exists ps0. split; [by right|done]. }
    destruct (js_in key result) eqn:Hin; [done|].
    apply js_in_false in Hin as [Hkey Hown].
    destruct ps as [| | | |items|o]; try done.
    destruct (obj_get "default" o) as [d0|] eqn:Hd0; [|done].
    intros [Hkept Hadded]%IH. split.
    + intros k v Hk. apply Hkept. rewrite obj_get_set_ne; [done|]. congruence.
    + intros k d Hk Hd. destruct (decide (k = key)) as [->|Hne].
      * rewrite (Hkept key d0 (obj_get_set_eq _ _ _)) in Hd. injection Hd as <-.
        split; [done|]. exists (JObj o). split; [by left|done].
      * destruct (Hadded k d) as (? & ps0 & ? & ?); [|done|].
        { by rewrite obj_get_set_ne. }
        split; [done|]. exists ps0. split; [by right|done].
Qed.

Lemma fillDefaults_keeps_keys entries result result' :
  fillDefaults entries result = Ok result' →
  ∀ k, k ∈ obj_keys result → k ∈ obj_keys result'.
Proof.
  intros [Hkept _]%fillDefaults_grows k Hk.
  destruct (obj_get k result) as [v|] eqn:E.
  - by apply (obj_get_Some_key _ _ v), Hkept.
  - by apply obj_get_None in E.
Qed.

(** X12: [applyDefaults] only adds declared defaults.  Whenever it
    returns, every property of the input is in the result with the
    input's value, and every other property of the result is a key that is
    absent from the input and not inherited, together with the [default]
    that a property schema of the indexed descriptor declares for it:
    nothing of the input is removed or overwritten. *)
Theorem applyDefaults_only_adds_defaults m input schemaName result :
  applyDefaults m input schemaName = Ok result →
  (∀ key value, obj_get key input = Some value → obj_get key result = Some value) ∧
  (∀ key value,
     obj_get key input = None → obj_get key result = Some value →
     inherited key = false ∧
     ∃ schema props ps,
       getSchema m schemaName = Some schema ∧
       properties schema = Some props ∧
       (key, ps) ∈ props ∧ get "default" ps = Some value).
Proof.
  unfold applyDefaults. destruct (getSchema m schemaName) as [schema|] eqn:Hschema;
    [|intros [= <-]; split; [done | congruence]].
  destruct (properties schema) as [props|] eqn:Hprops;
    [|intros [= <-]; split; [done | congruence]].
  intros [Hkept Hadded]%fillDefaults_grows. split; [done|].
  intros key value Hout Hin. destruct (Hadded key value Hout Hin) as (? & ps & ? & ?).
  split; [done|]. by exists schema, props, ps.
Qed.

Lemma applyDefaults_only_adds_defaults_witness :
  obj_get "context" [("context", JStr "cli"); ("force", JBool false)]
    = Some (JStr "cli").
Proof.
  refine (proj1 (applyDefaults_only_adds_defaults
              (loadSchemas (Ok [("aio-login.json", Document aio_login)]) constructor).1
              [("context", JStr "cli")] "aio-login"
              [("context", JStr "cli"); ("force", JBool false)] _)
            "context" (JStr "cli") _).
  - vm_compute. reflexivity.
  - reflexivity.
Defined.

Lemma fillDefaults_fixed entries result result' x :
  fillDefaults entries result = Ok result' →
  (∀ k, k ∈ obj_keys result' → k ∈ obj_keys x) →
  fillDefaults entries x = Ok x.
Proof.
  revert result. induction entries as [|[key ps] entries IH]; intros result; simpl; [done|].
  intros Hfill Hsub.
  assert (Hmono : ∀ r, fillDefaults entries r = Ok result' →
                       ∀ k, k ∈ obj_keys r → k ∈ obj_keys x).
  { intros r Hr k Hk. by apply Hsub, (fillDefaults_keeps_keys _ _ _ Hr). }
  destruct (js_in key result) eqn:Hkey.
  - assert (Hx : js_in key x = true).
    { unfold js_in in *. apply orb_true_iff in Hkey as [Hkey | Hkey]; [|rewrite Hkey; apply orb_true_r].
      apply obj_has_true in Hkey. apply (Hmono _ Hfill), obj_has_true in Hkey.
      by rewrite Hkey. }
    rewrite Hx. by apply (IH result).
  - destruct (js_in key x) eqn:Hx.
    + destruct ps as [| | | |items|o]; try done; [by apply (IH result)|].
      destruct (obj_get "default" o) as [d|]; by eapply IH.
    + destruct ps as [| | | |items|o]; try done; [by apply (IH result)|].
      destruct (obj_get "default" o) as [d|]; [|by apply (IH result)].
      exfalso. apply js_in_false in Hx as [Hx _]. apply obj_get_None in Hx.
      apply Hx, (Hmono _ Hfill), obj_keys_set. by left.
Qed.

(** X13: [applyDefaults] is idempotent: applied to its own result it
    returns that result unchanged. *)
Theorem applyDefaults_idempotent m input schemaName result :
  applyDefaults m input schemaName = Ok result →
  applyDefaults m result schemaName = Ok result.
Proof.
  unfold applyDefaults. destruct (getSchema m schemaName) as [schema|]; [|done].
  destruct (properties schema) as [props|]; [|done].
  intros Hfill. by apply (fillDefaults_fixed _ _ _ _ Hfill).
Qed.

Lemma applyDefaults_idempotent_witness :
  applyDefaults (loadSchemas (Ok [("aio-login.json", Document aio_login)]) constructor).1
    [("context", JStr "cli"); ("force", JBool false)] "aio-login"
  = Ok [("context", JStr "cli"); ("force", JBool false)].
Proof.
  apply (applyDefaults_idempotent _ [("context", JStr "cli")]).
  vm_compute. reflexivity.
Defined.

(** ** Schema information *)

Lemma someDefault_false entries input :
  someDefault entries.*2 = Ok false → fillDefaults entries input = Ok input.
Proof.
  induction entries as [|[key ps] entries IH]; simpl; [done|].
  destruct ps as [| | | |items|o]; simpl; try done.
  - intros H. rewrite (IH H). by destruct (js_in key input).
  - unfold obj_has. destruct (obj_get "default" o); [done|].
    intros H. rewrite (IH H). by destruct (js_in key input).
Qed.

Lemma someDefault_true entries result :
  ordinary (obj_keys entries) = true →
  someDefault entries.*2 = Ok true → fillDefaults entries [] = Ok result → result ≠ [].
Proof.
  induction entries as [|[key ps] entries IH]; simpl; [done|].
  intros [Hkey%negb_true_iff Hord]%andb_true_iff.
  rewrite (js_in_ordinary _ _ Hkey). simpl.
  destruct ps as [| | | |items|o]; simpl; try done; [by apply IH|].
  unfold obj_has. destruct (obj_get "default" o) as [d|]; [|by apply IH].
  intros _ [Hkept _]%fillDefaults_grows.
  specialize (Hkept key d (obj_get_set_eq _ _ _)). by destruct result.
Qed.

(** X14: [hasDefaults] of [getSchemaInfo] tells whether [applyDefaults]
    can add anything.  When it is [false], [applyDefaults] returns every
    input unchanged; when it is [true] and none of the property names the
    information lists is inherited, [applyDefaults] never returns the
    empty object for the empty object. *)
Theorem hasDefaults_decides_applyDefaults m schemaName info :
  getSchemaInfo m schemaName = Ok (Some info) →
  (Info.hasDefaults info = false →
     ∀ input, applyDefaults m input schemaName = Ok input) ∧
  (Info.hasDefaults info = true →
     ordinary (Info.properties info) = true →
     ∀ result, applyDefaults m [] schemaName = Ok result → result ≠ []).
Proof.
  unfold getSchemaInfo, applyDefaults.
  destruct (getSchema m schemaName) as [schema|]; [|done].
  destruct (someDefault _) as [d|e] eqn:Hsome; simpl; [|done].
  intros [= <-]. simpl. destruct (properties schema) as [props|]; simpl in *.
  - split; intros ->.
    + intros input. by apply someDefault_false.
    + intros Hord result. by apply someDefault_true.
  - injection Hsome as <-. split; [done|discriminate].
Qed.

Lemma hasDefaults_decides_applyDefaults_witness :
  [("force", JBool false)] ≠ @nil (string * JSON).
Proof.
  refine (proj2 (hasDefaults_decides_applyDefaults
    (loadSchemas (Ok [("aio-login.json", Document aio_login)]) constructor).1
    "aio-login"
    (Info.mk "aio-login" "Authenticate with Adobe I/O services" ["force"; "context"] []
       true true) _) _ _ [("force", JBool false)] _).
  - vm_compute. reflexivity.
  - reflexivity.
  - reflexivity.
  - vm_compute. reflexivity.
Defined.

(** ** The router, continued *)

(** Everything that holds when the router has invoked a handler. *)
Lemma callTool_invocation import m request :
  (length (invoked (callTool import m request)) ≤ 1)%nat ∧
  (∀ name validatedArgs,
     (name, validatedArgs) ∈ invoked (callTool import m request) →
     validateToolRequest request = request_valid ∧
     ∃ args data module toolHandler,
       destructure request = Ok (name, args) ∧
       validateInput m name args = Ok (valid_true data) ∧
       applyDefaults m data name = Ok validatedArgs ∧
       obj_get name toolModules = Some module ∧
       import module = Ok toolHandler ∧
       settled (callTool import m request) =
         match toolHandler validatedArgs with
         | Ok response => Ok response
         | Throw e => Ok (textResponse ("Error: " +:+ message e))
         end).
Proof.
  unfold callTool. destruct (validateToolRequest request) eqn:Hreq; simpl;
    [|split; [lia | by intros ? ? ?%elem_of_nil]].
  destruct (destructure request) as [[n args]|e] eqn:Hd; simpl;
    [|split; [lia | by intros ? ? ?%elem_of_nil]].
  destruct (validateInput m n args) as [[data|error]|e] eqn:Hv; simpl;
    try (split; [lia | by intros ? ? ?%elem_of_nil]).
  destruct (applyDefaults m data n) as [filled|e] eqn:Ha; simpl;
    [|split; [lia | by intros ? ? ?%elem_of_nil]].
  unfold getToolHandler. destruct (obj_get n toolModules) as [module|] eqn:Hmod; simpl;
    [|split; [lia | by intros ? ? ?%elem_of_nil]].
  destruct (import module) as [toolHandler|e] eqn:Himp; simpl;
    [|split; [lia | by intros ? ? ?%elem_of_nil]].
  split; [lia|]. intros name validatedArgs [= -> ->]%list_elem_of_singleton.
  split; [done|]. exists args, data, module, toolHandler. by repeat split.
Qed.

(** X15: one call of the router invokes at most one handler, and only
    when everything before it went through: the envelope is valid, the
    named tool has a validator that accepted the arguments, the handler
    is the one the dispatch table imports for that name, and it is
    invoked with the result of [applyDefaults] on the validated data.  The
    router then resolves to the handler's own response, or to
    "Error: <message>" when the handler fails. *)
Theorem router_invokes_at_most_one_handler import m request :
  (length (invoked (callTool import m request)) ≤ 1)%nat ∧
  (∀ name validatedArgs,
     (name, validatedArgs) ∈ invoked (callTool import m request) →
     validateToolRequest request = request_valid ∧
     ∃ args data module toolHandler,
       destructure request = Ok (name, args) ∧
       validateInput m name args = Ok (valid_true data) ∧
       applyDefaults m data name = Ok validatedArgs ∧
       obj_get name toolModules = Some module ∧
       import module = Ok toolHandler ∧
       settled (callTool import m request) =
         match toolHandler validatedArgs with
         | Ok response => Ok response
         | Throw e => Ok (textResponse ("Error: " +:+ message e))
         end).
Proof.
  unfold callTool. destruct (validateToolRequest request) eqn:Hreq; simpl;
    [|split; [lia | by intros ? ? ?%elem_of_nil]].
  destruct (destructure request) as [[n args]|e] eqn:Hd; simpl;
    [|split; [lia | by intros ? ? ?%elem_of_nil]].
  destruct (validateInput m n args) as [[data|error]|e] eqn:Hv; simpl;
    try (split; [lia | by intros ? ? ?%elem_of_nil]).
  destruct (applyDefaults m data n) as [filled|e] eqn:Ha; simpl;
    [|split; [lia | by intros ? ? ?%elem_of_nil]].
  unfold getToolHandler. destruct (obj_get n toolModules) as [module|] eqn:Hmod; simpl;
    [|split; [lia | by intros ? ? ?%elem_of_nil]].
  destruct (import module) as [toolHandler|e] eqn:Himp; simpl;
    [|split; [lia | by intros ? ? ?%elem_of_nil]].
  split; [lia|]. intros name validatedArgs [= -> ->]%list_elem_of_singleton.
  split; [done|]. exists args, data, module, toolHandler. by repeat split.
Qed.

(** X16: a tool that has a validator but no entry in the dispatch table
    is answered with "Error: Unknown tool: <name>", and a tool whose
    module fails to load with that failure's message; in both cases the
    arguments were validated first and no handler is invoked. *)
Theorem dispatch_failures_are_reported import m request name args data validatedArgs :
  validateToolRequest request = request_valid →
  destructure request = Ok (name, args) →
  validateInput m name args = Ok (valid_true data) →
  applyDefaults m data name = Ok validatedArgs →
  (obj_get name toolModules = None →
     callTool import m request =
       mkOutcome [] (Ok (textResponse ("Error: " +:+ ("Unknown tool: " +:+ name))))) ∧
  (∀ module e,
     obj_get name toolModules = Some module → import module = Throw e →
     callTool import m request =
       mkOutcome [] (Ok (textResponse ("Error: " +:+ message e)))).
Proof.
  intros Hreq Hd Hv Ha. unfold callTool, getToolHandler. rewrite Hreq, Hd, Hv, Ha.
  split.
  - by intros ->.
  - intros module e -> Himp. simpl. by rewrite Himp.
Qed.

Lemma dispatch_failures_are_reported_witness :
  callTool succeeding
    (loadSchemas (Ok [("my-tool.json", Document my_tool)]) constructor).1
    (call "my-tool" [("param1", JStr "x")])
  = mkOutcome [] (Ok (textResponse "Error: Unknown tool: my-tool")).
Proof.
  refine (proj1 (dispatch_failures_are_reported succeeding
    (loadSchemas (Ok [("my-tool.json", Document my_tool)]) constructor).1
    (call "my-tool" [("param1", JStr "x")]) "my-tool"
    (Some (JObj [("param1", JStr "x")])) [("param1", JStr "x")]
    [("param1", JStr "x"); ("param2", JBool false)]
    ltac:(reflexivity) ltac:(reflexivity) ltac:(vm_compute; reflexivity)
    ltac:(vm_compute; reflexivity)) ltac:(reflexivity)).
Defined.

(** X17: what the handler is given, end to end.  After a completed load
    of descriptors with distinct names, for a loaded descriptor whose
    property schemas are objects under distinct keys that are not names a
    plain object inherits, and for a caller none of whose arguments is an
    object with a member named [__proto__], every handler invocation the
    router makes for a call of that tool passes arguments in which a
    declared property has the value the caller gave it, or else the
    declared default, or else is absent, and in which no other property
    occurs. *)
Theorem handler_arguments_end_to_end files m' toolSchema props import request o
    validatedArgs :
  loadSchemas (Ok files) constructor = (m', Ok ()) →
  NoDup (name <$> descriptors (jsonFiles files)) →
  toolSchema ∈ descriptors (jsonFiles files) →
  properties toolSchema = Some props →
  NoDup (obj_keys props) →
  forallb (λ p, isObjectValue p.2) props = true →
  ordinary (obj_keys props) = true →
  copiedWhole o = true →
  destructure request = Ok (name toolSchema, Some (JObj o)) →
  (name toolSchema, validatedArgs) ∈ invoked (callTool import m' request) →
  ∀ key, obj_get key validatedArgs =
    if obj_has key props then
      match obj_get key o with
      | Some value => Some value
      | None => obj_get key props ≫= get "default"
      end
    else None.
Proof.
  intros Hload Hnd Hin Hprops Hkeys Hobj Hord _ Hd Hinv key.
  destruct (callTool_invocation import m' request) as [_ Hone].
  destruct (Hone _ _ Hinv) as (_ & args & data & _ & _ & Hd' & Hv & Ha & _).
  rewrite Hd in Hd'. injection Hd' as <-.
  destruct (loadSchemas_Ok_entry _ _ _ Hload Hnd Hin) as [Hs _].
  apply loadSchemas_Ok in Hload as (files' & m0 & [= <-] & Hload & ->).
  destruct (loadFiles_Ok_shape _ _ _ _ _ Hload Hnd Hin Hprops) as (shape & Hshape & Hsame).
  destruct (validateInput_valid _ _ _ _ _ Hshape Hv) as (o' & [= <-] & ->).
  unfold applyDefaults, getSchema in Ha. rewrite Hs, Hprops in Ha.
  destruct (fillDefaults_spec props (strip shape o) Hkeys Hobj Hord) as (r & Hr & Hget).
  rewrite Hr in Ha. injection Ha as <-. rewrite Hget, strip_get.
  assert (Hhas : obj_has key shape = obj_has key props).
  { apply eq_true_iff_eq. rewrite !obj_has_true. apply Hsame. }
  rewrite Hhas. destruct (obj_has key props) eqn:E; [done|].
  unfold obj_has in E. by destruct (obj_get key props).
Qed.

Lemma handler_arguments_end_to_end_witness :
  obj_get "force" [("context", JStr "cli"); ("force", JBool false)] =
    if obj_has "force"
         [ ("force", JObj [ ("type", JStr "boolean"); ("default", JBool false) ]);
           ("context", JObj [ ("type", JStr "string") ]) ]
    then
      match obj_get "force" [("context", JStr "cli"); ("verbose", JBool true)] with
      | Some value => Some value
      | None =>
          obj_get "force"
            [ ("force", JObj [ ("type", JStr "boolean"); ("default", JBool false) ]);
              ("context", JObj [ ("type", JStr "string") ]) ] ≫= get "default"
      end
    else None.
Proof.
  apply (handler_arguments_end_to_end
    [ ("my-tool.json", Document my_tool); ("aio-login.json", Document aio_login) ]
    (loadSchemas (Ok [ ("my-tool.json", Document my_tool);
                       ("aio-login.json", Document aio_login) ]) constructor).1
    (mkToolSchema "aio-login" "Authenticate with Adobe I/O services"
       (Some [ ("force", JObj [ ("type", JStr "boolean"); ("default", JBool false) ]);
               ("context", JObj [ ("type", JStr "string") ]) ])
       None aio_login)
    _ succeeding
    (call "aio-login" [("context", JStr "cli"); ("verbose", JBool true)])).
  - vm_compute. reflexivity.
  - compute_done.
  - vm_compute. apply list_elem_of_further, list_elem_of_here.
  - reflexivity.
  - compute_done.
  - reflexivity.
  - reflexivity.
  - reflexivity.
  - reflexivity.
  - vm_compute. apply list_elem_of_here.
Defined.

(** ** Tool handlers *)

Lemma configureArgs_shape args cmdArgs :
  configureArgs args = inr cmdArgs →
  cmdArgs = [JStr "where"] ∧ isLiteral (obj_get "action" args) "show-current" = true ∨
  isLiteral (obj_get "action" args) "show-current" = false ∧
  ∃ section verb rest,
    cmdArgs = JStr "console" :: JStr section :: JStr verb :: rest ∧
    section ∈ ["org"; "project"; "workspace"] ∧ verb ∈ ["list"; "select"] ∧
    (length rest ≤ 1)%nat.
Proof.
  unfold configureArgs.
  destruct (obj_get "action" args) as [[| | |action| |]|]; simpl; try done.
  destruct (String.eqb_spec action "list-orgs") as [->|_].
  { intros [= <-]. right. split; [done|]. exists "org", "list", []. simpl.
    repeat split; [set_solver | set_solver | lia]. }
  destruct (String.eqb_spec action "list-projects") as [->|_].
  { intros [= <-]. right. split; [done|]. exists "project", "list", []. simpl.
    repeat split; [set_solver | set_solver | lia]. }
  destruct (String.eqb_spec action "list-workspaces") as [->|_].
  { intros [= <-]. right. split; [done|]. exists "workspace", "list", []. simpl.
    repeat split; [set_solver | set_solver | lia]. }
  destruct (String.eqb_spec action "select-org") as [->|_].
  { destruct (obj_get "org" args) as [value|]; [|done].
    destruct (truthy (Some value)); [|done].
    intros [= <-]. right. split; [done|]. exists "org", "select", [value]. simpl.
    repeat split; [set_solver | set_solver | lia]. }
  destruct (String.eqb_spec action "select-project") as [->|_].
  { destruct (obj_get "project" args) as [value|]; [|done].
    destruct (truthy (Some value)); [|done].
    intros [= <-]. right. split; [done|]. exists "project", "select", [value]. simpl.
    repeat split; [set_solver | set_solver | lia]. }
  destruct (String.eqb_spec action "select-workspace") as [->|_].
  { destruct (obj_get "workspace" args) as [value|]; [|done].
    destruct (truthy (Some value)); [|done].
    intros [= <-]. right. split; [done|]. exists "workspace", "select", [value]. simpl.
    repeat split; [set_solver | set_solver | lia]. }
  destruct (String.eqb_spec action "show-current") as [->|_]; [|done].
  intros [= <-]. by left.
Qed.

(** X18: whatever arguments it is given and whatever [executeCommand]
    answers, [handleAioConfigureGlobal] executes at most one command,
    always [aio], and its arguments are either exactly [where] or begin
    with the three fixed words [console], one of [org], [project],
    [workspace], and one of [list], [select]: values taken from the
    caller's arguments only ever come after them, and there is at most
    one such value, followed at most by [--verbose]. *)
Theorem configureGlobal_command_shape executeCommand args :
  (length (commands (handleAioConfigureGlobal executeCommand args)) ≤ 1)%nat ∧
  ∀ command cmdArgs,
    (command, cmdArgs) ∈ commands (handleAioConfigureGlobal executeCommand args) →
    command = "aio" ∧
    (cmdArgs = [JStr "where"] ∨
     ∃ section verb rest,
       cmdArgs = JStr "console" :: JStr section :: JStr verb :: rest ∧
       section ∈ ["org"; "project"; "workspace"] ∧ verb ∈ ["list"; "select"] ∧
       (length rest ≤ 2)%nat ∧
       (length rest = 2 → rest !! 1 = Some (JStr "--verbose"))).
Proof.
  unfold handleAioConfigureGlobal, commands.
  destruct (configureArgs args) as [refusal|base] eqn:Hargs; simpl;
    [split; [lia | by intros ? ? ?%elem_of_nil]|].
  split; [lia|]. intros command cmdArgs [= -> ->]%list_elem_of_singleton.
  split; [done|].
  destruct (configureArgs_shape _ _ Hargs)
    as [[-> Hshow]|(Hshow & section & verb & rest & -> & Hs & Hv & Hlen)].
  - rewrite Hshow, andb_false_r. by left.
  - right. rewrite Hshow, andb_true_r.
    destruct (truthy (obj_get "verbose" args)); simpl.
    + exists section, verb, (rest ++ [JStr "--verbose"])%list.
      split; [done|]. split; [done|]. split; [done|]. rewrite length_app. simpl.
      split; [lia|]. intros Hl.
      destruct rest as [|r [|r' rest]]; simpl in *; try lia. done.
    + exists section, verb, rest. split; [done|]. split; [done|]. split; [done|].
      split; lia.
Qed.

(** X19: the action [show-current] of [handleAioConfigureGlobal] is
    [handleAioWhere]: whatever the other arguments, [verbose] included,
    it logs and executes exactly what [handleAioWhere] does on any
    arguments, the command [aio where]. *)
Theorem show_current_runs_aio_where executeCommand args args' :
  obj_get "action" args = Some (JStr "show-current") →
  trace (handleAioConfigureGlobal executeCommand args)
    = trace (handleAioWhere executeCommand args') ∧
  commands (handleAioConfigureGlobal executeCommand args) = [("aio", [JStr "where"])].
Proof.
  intros Haction. unfold handleAioConfigureGlobal, handleAioWhere, commands, configureArgs.
  rewrite Haction. simpl. by rewrite andb_false_r.
Qed.

Lemma show_current_runs_aio_where_witness :
  commands (handleAioConfigureGlobal
              (λ _ _, Ok (CommandExecutor.mkResult true "" ""))
              [("action", JStr "show-current"); ("verbose", JBool true)])
  = [("aio", [JStr "where"])].
Proof.
  refine (proj2 (show_current_runs_aio_where _ _ [] _)). reflexivity.
Defined.

(** X20: [handleAioConfigureGlobal] refuses before running anything.  When
    [action] is none of its seven action names, or is one of the three
    [select-] actions while the parameter it needs ([org], [project],
    [workspace]) is absent or falsy, it executes no command, logs
    nothing, and resolves to a single text that starts with the error
    mark. *)
Theorem configureGlobal_refusals executeCommand args :
  let action := obj_get "action" args in
  (∀ known, known ∈ ["list-orgs"; "list-projects"; "list-workspaces"; "select-org";
                      "select-project"; "select-workspace"; "show-current"] →
            action ≠ Some (JStr known)) ∨
  (action = Some (JStr "select-org") ∧ truthy (obj_get "org" args) = false) ∨
  (action = Some (JStr "select-project") ∧ truthy (obj_get "project" args) = false) ∨
  (action = Some (JStr "select-workspace") ∧ truthy (obj_get "workspace" args) = false) →
  ∃ text,
    handleAioConfigureGlobal executeCommand args = mkRun [] (Ok (textResponse text)) ∧
    String.prefix "❌ Error: " text = true.
Proof.
  intros action. unfold handleAioConfigureGlobal, configureArgs. fold action.
  intros [Hunknown|[[-> Horg]|[[-> Hproject]|[-> Hworkspace]]]].
  - assert (Hlit : ∀ known,
              known ∈ ["list-orgs"; "list-projects"; "list-workspaces"; "select-org";
                       "select-project"; "select-workspace"; "show-current"] →
              isLiteral action known = false).
    { intros known Hknown. specialize (Hunknown known Hknown).
      destruct action as [[| | |s| |]|]; simpl; try done.
      destruct (String.eqb_spec s known) as [->|]; [done|done]. }
    rewrite !Hlit by set_solver. eexists. split; [done|]. done.
  - simpl. destruct (obj_get "org" args) as [value|]; [rewrite Horg|];
      eexists; (split; [done|]); done.
  - simpl. destruct (obj_get "project" args) as [value|]; [rewrite Hproject|];
      eexists; (split; [done|]); done.
  - simpl. destruct (obj_get "workspace" args) as [value|]; [rewrite Hworkspace|];
      eexists; (split; [done|]); done.
Qed.

Lemma configureGlobal_refusals_witness :
  ∃ text,
    handleAioConfigureGlobal (λ _ _, Ok (CommandExecutor.mkResult true "" ""))
      [("action", JStr "select-org"); ("org", JStr "")]
    = mkRun [] (Ok (textResponse text)) ∧
    String.prefix "❌ Error: " text = true.
Proof.
  apply (configureGlobal_refusals (λ _ _, Ok (CommandExecutor.mkResult true "" ""))
           [("action", JStr "select-org"); ("org", JStr "")]).
  right. left. split; reflexivity.
Defined.

(** X21: a request that fails the envelope check is answered before the
    schema manager or the dispatch table is consulted: the router
    resolves to "Invalid request format" followed by the envelope error,
    invokes no handler, and does so identically for every manager and
    every set of handlers. *)
Theorem invalid_envelope_is_answered_first import m request error :
  validateToolRequest request = request_invalid error →
  callTool import m request =
    mkOutcome [] (Ok (textResponse ("❌ Invalid request format: " +:+ error))) ∧
  String.prefix "Invalid tool request: " error = true ∧
  ∀ import' m', callTool import' m' request = callTool import m request.
Proof.
  intros Hreq. unfold callTool. rewrite Hreq. split; [done|]. split; [|done].
  unfold validateToolRequest in Hreq.
  destruct (CallToolRequestSchema_safeParse request); [done|].
  injection Hreq as <-.
  match goal with |- String.prefix _ (_ +:+ ?t) = true => generalize t end.
  intros tail. simpl. by destruct tail.
Qed.

Lemma invalid_envelope_is_answered_first_witness :
  callTool succeeding constructor (JObj [("method", JStr "tools/list")])
  = mkOutcome []
      (Ok (textResponse
             ("❌ Invalid request format: "
              +:+ ("Invalid tool request: Invalid literal value, expected "
                   +:+ dquote +:+ "tools/call" +:+ dquote +:+ ", Required")))).
Proof.
  refine (proj1 (invalid_envelope_is_answered_first succeeding constructor
                   (JObj [("method", JStr "tools/list")]) _ _)).
  vm_compute. reflexivity.
Defined.
